(** * HyperKart 3D: the race simulation core of [src/main.jsx]

    A shallow embedding of the kart physics ([Kart]'s [useFrame] callback),
    of the two observable stores ([useStore], [useRaceStore]) and of the
    selection helpers, followed by the properties of the specification.

    Numbers.  A JavaScript number is modelled by a real number, with exact
    arithmetic: [Math.cos], [Math.sin], [Math.abs], [Math.min], [Math.max]
    and [Math.PI] are [cos], [sin], [Rabs], [Rmin], [Rmax] and [PI];
    [Math.hypot] and [Math.atan2] are the functions [hypot] and [atan2]
    below.  Rounding and overflow are not modelled.  The one way the tick
    leaves the finite numbers in exact arithmetic is the division by [r] in
    the track boundary code: at [r = 0] the quotient is [Infinity] and the
    product [0 * Infinity] is [NaN].  A value that can be [NaN] (the
    position, and the angles read from it) has type [num = option R], with
    [None] for [NaN]; every comparison with it is false, as in JavaScript.
    The division by [maxSpeed] is the real division: it is the source's for
    every car with [maxSpeed <> 0], which all of [CARS] are. *)

From Stdlib Require Import Reals Lra Lia ZArith Bool List String.
Import ListNotations.
Open Scope R_scope.

(** ** JavaScript numbers *)

Definition num : Type := option R.
Definition NaN : num := None.

Definition Rltb (a b : R) : bool := if Rlt_dec a b then true else false.
Definition Rleb (a b : R) : bool := if Rle_dec a b then true else false.

(** [a < b], [a <= b], [a > b], [a >= b] on numbers that may be [NaN]. *)
Definition num_lt (a b : num) : bool :=
  match a, b with Some u, Some v => Rltb u v | _, _ => false end.
Definition num_le (a b : num) : bool :=
  match a, b with Some u, Some v => Rleb u v | _, _ => false end.
Definition num_gt (a b : num) : bool := num_lt b a.
Definition num_ge (a b : num) : bool := num_le b a.

Definition num_sub (a b : num) : num :=
  match a, b with Some u, Some v => Some (u - v) | _, _ => NaN end.
Definition num_abs (a : num) : num := option_map Rabs a.

(** Truncation toward zero, and the remainder [a % m] with the sign of the
    dividend. *)
Definition Rtrunc (a : R) : Z :=
  if Rle_dec 0 a then Int_part a else (- Int_part (- a))%Z.
Definition Rrem (a m : R) : R := a - m * IZR (Rtrunc (a / m)).

(** [Math.hypot(x, z)] *)
Definition hypot (x z : R) : R := sqrt (x * x + z * z).

(** [Math.atan2(y, x)]: the exact angle, in (-PI, PI].  The source's
    function rounds it to a double: on a narrow band about the negative x
    axis (|y| below about 6e-15 at the radii of the ring) it returns
    [Math.PI], or [-Math.PI] when [y] is negative, where the exact angle is
    PI on the axis only and never -PI.  A property of the half-lap test is
    therefore stated on the angle a frame computes, not on the position the
    angle is computed from. *)
Definition atan2 (y x : R) : R :=
  if Rlt_dec 0 x then atan (y / x)
  else if Rlt_dec x 0 then
    (if Rle_dec 0 y then atan (y / x) + PI else atan (y / x) - PI)
  else if Rlt_dec 0 y then PI / 2
  else if Rlt_dec y 0 then - (PI / 2)
  else 0.

(** ** Data: characters, cars, tracks *)

Record Character : Type := mkCharacter
  { ch_id : string; ch_name : string; color : string }.

Record Car : Type := mkCar
  { car_id : string; car_name : string;
    accel : R; maxSpeed : R; handling : R }.

Record Track : Type := mkTrack
  { tr_id : string; tr_name : string; theme : string;
    sky : string; fog : string; seatColor : string; turf : string }.

Definition DEFAULT_LAPS : Z := 3.

(** [CHARACTERS[0]], [CARS[0]], [TRACKS[0]] *)
Definition CHARACTERS0 : Character := mkCharacter "rex" "Rex" "#29b6f6".
Definition CARS0 : Car := mkCar "sprinter" "Sprinter" 9.5 28 1.0.
Definition TRACKS0 : Track :=
  mkTrack "classic" "Stadium Classic" "classic"
          "#87ceeb" "#a6d5f7" "#334155" "#2e7d32".

Definition CHARACTERS : list Character :=
  [ CHARACTERS0;
    mkCharacter "luna" "Luna" "#ef5da8";
    mkCharacter "bolt" "Bolt" "#ffe082";
    mkCharacter "ember" "Ember" "#ff7043";
    mkCharacter "oak" "Oak" "#8bc34a";
    mkCharacter "ghost" "Ghost" "#cfd8dc" ].

Definition CARS : list Car :=
  [ CARS0;
    mkCar "torque" "Torque" 7.5 34 0.8;
    mkCar "glider" "Glider" 8.5 31 1.1;
    mkCar "bulldog" "Bulldog" 6.5 36 0.7 ].

Definition TRACKS : list Track :=
  [ TRACKS0;
    mkTrack "city" "Stadium City" "city"
            "#cfe3ff" "#9bb7e2" "#1f2937" "#1b5e20";
    mkTrack "west" "Stadium Wild West" "west"
            "#ffcc80" "#ffc080" "#5d4037" "#8d6e63" ].

(** ** Utilities *)

(** [function clamp(v, min, max) { return Math.min(max, Math.max(min, v)); }] *)
Definition clamp (v min max : R) : R := Rmin max (Rmax min v).

(** [function normalizeAngle(a)]: [let x = a % (2*Math.PI);
    if(x < -Math.PI) x += 2*Math.PI; if(x > Math.PI) x -= 2*Math.PI;] *)
Definition normalizeAngleR (a : R) : R :=
  let x := Rrem a (2 * PI) in
  let x := if Rlt_dec x (- PI) then x + 2 * PI else x in
  if Rlt_dec PI x then x - 2 * PI else x.

Definition normalizeAngle (a : num) : num := option_map normalizeAngleR a.

(** ** The selection store ([useStore]) *)

(** The fields of [useStore]'s state that a race reads.  A selected entry
    is an object or [undefined]. *)
Record StoreState : Type := mkStoreState
  { selectedCharacter : option Character;
    selectedCar : option Car;
    selectedTrack : option Track;
    laps : Z;
    platform : string }.

Definition useStore : StoreState :=
  {| selectedCharacter := Some CHARACTERS0;
     selectedCar := Some CARS0;
     selectedTrack := Some TRACKS0;
     laps := DEFAULT_LAPS;
     platform := "Laptop" |}.

Definition setCharacter (c : option Character) (s : StoreState) : StoreState :=
  {| selectedCharacter := c; selectedCar := selectedCar s;
     selectedTrack := selectedTrack s; laps := laps s; platform := platform s |}.
Definition setCar (c : option Car) (s : StoreState) : StoreState :=
  {| selectedCharacter := selectedCharacter s; selectedCar := c;
     selectedTrack := selectedTrack s; laps := laps s; platform := platform s |}.
Definition setTrack (t : option Track) (s : StoreState) : StoreState :=
  {| selectedCharacter := selectedCharacter s; selectedCar := selectedCar s;
     selectedTrack := t; laps := laps s; platform := platform s |}.
Definition setLaps (n : Z) (s : StoreState) : StoreState :=
  {| selectedCharacter := selectedCharacter s; selectedCar := selectedCar s;
     selectedTrack := selectedTrack s; laps := n; platform := platform s |}.

(** The object [useSelection] builds. *)
Record Selection : Type := mkSelection
  { character : option Character;
    car : option Car;
    track : option Track;
    sel_laps : Z }.

Definition useSelection (s : StoreState) : Selection :=
  {| character := selectedCharacter s; car := selectedCar s;
     track := selectedTrack s; sel_laps := laps s |}.

(** [makeSafeSelection(sel)]: [sel] when its character, car and track are
    all truthy, the first entries and [DEFAULT_LAPS] otherwise. *)
Definition makeSafeSelection (sel : Selection) : Selection :=
  match character sel, car sel, track sel with
  | Some _, Some _, Some _ => sel
  | _, _, _ =>
      {| character := Some CHARACTERS0; car := Some CARS0;
         track := Some TRACKS0; sel_laps := DEFAULT_LAPS |}
  end.

Definition useSafeSelection (s : StoreState) : Selection :=
  makeSafeSelection (useSelection s).

(** ** The race store ([useRaceStore]) *)

Record RaceState : Type := mkRaceState
  { currentLap : Z; totalLaps : Z; finished : bool;
    innerR : R; outerR : R }.

Definition useRaceStore : RaceState :=
  {| currentLap := 1; totalLaps := DEFAULT_LAPS; finished := false;
     innerR := 12; outerR := 22 |}.

(** [setState({ currentLap: 1, totalLaps: laps, finished: false })], the
    write of [RaceScene]'s mount effect: [Object.assign] leaves the other
    fields as they are. *)
Definition resetRace (n : Z) (s : RaceState) : RaceState :=
  {| currentLap := 1; totalLaps := n; finished := false;
     innerR := innerR s; outerR := outerR s |}.

(** [setRace((s)=>{ const newLap = s.currentLap + 1;
    const finished = newLap > s.totalLaps;
    return { ...s, currentLap: newLap, finished }; })] *)
Definition completeLap (s : RaceState) : RaceState :=
  let newLap := (currentLap s + 1)%Z in
  {| currentLap := newLap; totalLaps := totalLaps s;
     finished := (totalLaps s <? newLap)%Z;
     innerR := innerR s; outerR := outerR s |}.

(** ** The kart *)

Module THREE.
Record Vector3 : Type := mkVector3 { x : R; y : R; z : R }.
End THREE.

Record Controls : Type := mkControls
  { left : bool; right : bool; up : bool; down : bool }.

Definition noControls : Controls := mkControls false false false false.

(** What one call of the [useFrame] callback receives: the frame's [dt],
    [state.clock.elapsedTime] and [controlRef.current]. *)
Record Frame : Type := mkFrame
  { delta : R; elapsedTime : R; controlRef : option Controls }.

(** The refs of [Kart].  [pos] is [None] when its coordinates are [NaN]. *)
Record Kart : Type := mkKart
  { vel : R;
    yaw : R;
    pos : option THREE.Vector3;
    lastAngle : num;
    checkpoint : bool;
    lastBoostTime : R }.

Definition Kart_init : Kart :=
  {| vel := 0; yaw := 0;
     pos := Some (THREE.mkVector3 (12 + 5) 0.35 0);
     lastAngle := Some 0;
     checkpoint := false;
     lastBoostTime := 0 |}.

Record World : Type := mkWorld { race : RaceState; kart : Kart }.

(** ** One frame of [Kart]'s [useFrame] callback, stage by stage *)

(** [if(dt>0.05) dt = 0.05;] *)
Definition clampDt (dt : R) : R := if Rlt_dec 0.05 dt then 0.05 else dt.

(** [controlRef.current || {left:false,right:false,up:false,down:false}] *)
Definition currentControls (fr : Frame) : Controls :=
  match controlRef fr with Some c => c | None => noControls end.

(** Acceleration and braking: the three assignments to [vel.current]. *)
Definition longitudinal (carStats : Car) (controls : Controls) (dt v : R) : R :=
  let accel_ := accel carStats * 0.6 in
  let braking := accel carStats * 0.8 in
  let maxSpeed_ := maxSpeed carStats in
  let v := if up controls
           then clamp (v + accel_ * dt) (- maxSpeed_ * 0.3) maxSpeed_
           else clamp (v - (accel_ * 0.4) * dt) (- maxSpeed_ * 0.3) maxSpeed_ in
  if down controls
  then clamp (v - braking * dt) (- maxSpeed_ * 0.3) maxSpeed_
  else v.

(** Steering, scaled by speed; [v] is the speed the longitudinal stage left.
    The quotient is the real one, which is the source's for [maxSpeed <> 0];
    at [maxSpeed = 0] the source computes [NaN] or [Infinity], and the
    properties of the steering and of the position assume [0 < maxSpeed]. *)
Definition steering (carStats : Car) (controls : Controls) (dt v yaw_ : R) : R :=
  let speedFactor := clamp (Rabs v / maxSpeed carStats) 0 1 in
  let steerStrength := handling carStats * (0.9 * speedFactor + 0.1) in
  let yaw_ := if left controls then yaw_ + 1.8 * steerStrength * dt else yaw_ in
  if right controls then yaw_ - 1.8 * steerStrength * dt else yaw_.

(** [pos.x += Math.cos(yaw) * vel * dt; pos.z += Math.sin(yaw) * vel * dt;] *)
Definition integrate (yaw_ v dt : R) (p : option THREE.Vector3) : option THREE.Vector3 :=
  option_map
    (fun p => THREE.mkVector3 (THREE.x p + cos yaw_ * v * dt)
                              (THREE.y p)
                              (THREE.z p + sin yaw_ * v * dt)) p.

(** [Math.hypot(pos.x, pos.z)] *)
Definition radius (p : option THREE.Vector3) : num :=
  option_map (fun p => hypot (THREE.x p) (THREE.z p)) p.

(** [const k = target / r; pos.x *= k; pos.z *= k;] where [r] is the
    radius of the position before the boundary code ran.  At [r = 0] that
    position is the centre, [k] is not finite and both products are [NaN]. *)
Definition rescale (target : R) (r : num) (p : option THREE.Vector3) : option THREE.Vector3 :=
  match r, p with
  | Some r, Some p =>
      if Req_dec_T r 0 then None
      else Some (THREE.mkVector3 (THREE.x p * (target / r))
                                 (THREE.y p)
                                 (THREE.z p * (target / r)))
  | _, _ => None
  end.

(** The track boundary (ring): the two [if]s on [r], on the pair of the
    position and the speed. *)
Definition trackBoundary (innerR_ outerR_ : R) (r : num)
    (pv : option THREE.Vector3 * R) : option THREE.Vector3 * R :=
  let pv := if num_lt r (Some innerR_)
            then (rescale innerR_ r (fst pv), snd pv * 0.6) else pv in
  if num_gt r (Some outerR_)
  then (rescale outerR_ r (fst pv), snd pv * 0.6) else pv.

(** [Math.atan2(pos.z, pos.x)] *)
Definition angleOf (p : option THREE.Vector3) : num :=
  option_map (fun p => atan2 (THREE.z p) (THREE.x p)) p.

(** [const pads = [Math.PI/4, Math.PI, (3*Math.PI)/2];] *)
Definition pads : list R := [PI / 4; PI; (3 * PI) / 2].

(** The angular half-width [Math.PI/12] of a boost window. *)
Definition padHalfWidth : R := PI / 12.

(** [const onPad = diff < (Math.PI/12) && Math.abs(r - centerR) < (outerR-innerR)/3;]
    with [diff = Math.abs(normalizeAngle(ang - a))] *)
Definition onPad (innerR_ outerR_ : R) (ang r : num) (a : R) : bool :=
  let centerR := (innerR_ + outerR_) / 2 in
  let diff := num_abs (normalizeAngle (num_sub ang (Some a))) in
  num_lt diff (Some padHalfWidth)
  && num_lt (num_abs (num_sub r (Some centerR))) (Some ((outerR_ - innerR_) / 3)).

(** The body of the loop over the pads, on the pair of [vel.current] and
    [lastBoostTime.current]. *)
Definition boostPad (maxSpeed_ innerR_ outerR_ : R) (ang r : num) (elapsed : R)
    (vb : R * R) (a : R) : R * R :=
  if onPad innerR_ outerR_ ang r a && Rltb 1.0 (elapsed - snd vb)
  then (Rmin (maxSpeed_ * 1.2) (fst vb + 8), elapsed)
  else vb.

Definition boostPads (maxSpeed_ innerR_ outerR_ : R) (ang r : num) (elapsed : R)
    (vb : R * R) : R * R :=
  fold_left (boostPad maxSpeed_ innerR_ outerR_ ang r elapsed) pads vb.

(** Is the kart inside one of the boost windows? *)
Definition onAnyPad (innerR_ outerR_ : R) (ang r : num) : bool :=
  existsb (onPad innerR_ outerR_ ang r) pads.

(** [angPrev < 0 && ang >= 0 && Math.abs(r - centerR) < (outerR-innerR)/2] *)
Definition crossedStart (innerR_ outerR_ : R) (angPrev ang r : num) : bool :=
  let centerR := (innerR_ + outerR_) / 2 in
  num_lt angPrev (Some 0) && num_ge ang (Some 0)
  && num_lt (num_abs (num_sub r (Some centerR))) (Some ((outerR_ - innerR_) / 2)).

(** [(angPrev < Math.PI && ang >= Math.PI) || (angPrev > -Math.PI && ang <= -Math.PI)] *)
Definition crossedHalf (angPrev ang : num) : bool :=
  (num_lt angPrev (Some PI) && num_ge ang (Some PI))
  || (num_gt angPrev (Some (- PI)) && num_le ang (Some (- PI))).

(** The value of [checkpoint.current] when the lap test reads it:
    [if(crossedHalf) checkpoint.current = true;] has run. *)
Definition armed (cp : bool) (angPrev ang : num) : bool :=
  if crossedHalf angPrev ang then true else cp.

(** The position, the speed, the radius [r] and the angle [ang] of a frame,
    as the stages before the boost pads compute them. *)
Definition velAfterDynamics (carStats : Car) (fr : Frame) (w : World) : R :=
  longitudinal carStats (currentControls fr) (clampDt (delta fr)) (vel (kart w)).

Definition yawAfterSteering (carStats : Car) (fr : Frame) (w : World) : R :=
  steering carStats (currentControls fr) (clampDt (delta fr))
           (velAfterDynamics carStats fr w) (yaw (kart w)).

Definition posAfterIntegration (carStats : Car) (fr : Frame) (w : World)
    : option THREE.Vector3 :=
  integrate (yawAfterSteering carStats fr w) (velAfterDynamics carStats fr w)
            (clampDt (delta fr)) (pos (kart w)).

Definition frameRadius (carStats : Car) (fr : Frame) (w : World) : num :=
  radius (posAfterIntegration carStats fr w).

Definition afterBoundary (carStats : Car) (fr : Frame) (w : World)
    : option THREE.Vector3 * R :=
  trackBoundary (innerR (race w)) (outerR (race w)) (frameRadius carStats fr w)
                (posAfterIntegration carStats fr w, velAfterDynamics carStats fr w).

Definition frameAngle (carStats : Car) (fr : Frame) (w : World) : num :=
  angleOf (fst (afterBoundary carStats fr w)).

(** Does the lap test of this frame succeed ([crossedStart && checkpoint.current])? *)
Definition lapCompleted (carStats : Car) (fr : Frame) (w : World) : bool :=
  let ang := frameAngle carStats fr w in
  crossedStart (innerR (race w)) (outerR (race w)) (lastAngle (kart w)) ang
               (frameRadius carStats fr w)
  && armed (checkpoint (kart w)) (lastAngle (kart w)) ang.

(** Does a boost pad fire in this frame: the kart is inside a window and
    more than one second of clock time has passed since the last boost. *)
Definition boostFires (carStats : Car) (fr : Frame) (w : World) : bool :=
  onAnyPad (innerR (race w)) (outerR (race w))
           (frameAngle carStats fr w) (frameRadius carStats fr w)
  && Rltb 1.0 (elapsedTime fr - lastBoostTime (kart w)).

(** The whole callback. *)
Definition tick (carStats : Car) (fr : Frame) (w : World) : World :=
  let pv := afterBoundary carStats fr w in
  let ang := frameAngle carStats fr w in
  let vb := boostPads (maxSpeed carStats) (innerR (race w)) (outerR (race w))
                      ang (frameRadius carStats fr w) (elapsedTime fr)
                      (snd pv, lastBoostTime (kart w)) in
  let lap := lapCompleted carStats fr w in
  {| race := if lap then completeLap (race w) else race w;
     kart := {| vel := fst vb;
                yaw := yawAfterSteering carStats fr w;
                pos := fst pv;
                lastAngle := ang;
                checkpoint :=
                  if lap then false
                  else armed (checkpoint (kart w)) (lastAngle (kart w)) ang;
                lastBoostTime := snd vb |} |}.

(** The frames of a race, in order. *)
Definition runFrames (carStats : Car) (frames : list Frame) (w : World) : World :=
  fold_left (fun w fr => tick carStats fr w) frames w.

(** The worlds a run goes through, one per frame. *)
Fixpoint trace (carStats : Car) (frames : list Frame) (w : World) : list World :=
  match frames with
  | [] => []
  | fr :: frames' =>
      let w' := tick carStats fr w in w' :: trace carStats frames' w'
  end.

(** The number of changes from [false] to [true] in a list of flags that
    follows the flag [prev]. *)
Fixpoint risingEdges (prev : bool) (l : list bool) : nat :=
  match l with
  | [] => O
  | b :: l' => ((if negb prev && b then 1 else 0) + risingEdges b l')%nat
  end.

(** The number of frames of a run whose lap test succeeds. *)
Fixpoint countLaps (carStats : Car) (frames : list Frame) (w : World) : nat :=
  match frames with
  | [] => O
  | fr :: frames' =>
      ((if lapCompleted carStats fr w then 1 else 0)
       + countLaps carStats frames' (tick carStats fr w))%nat
  end.

(** ** A race session *)

(** What [RaceScreen] hands to [RaceScene], and the world [RaceScene]
    mounts: the race store after the mount effect
    [setState({ currentLap: 1, totalLaps: useStore.get().laps, finished: false })]
    and a fresh [Kart]. *)
Record Session : Type := mkSession
  { ses_theme : Track;
    ses_character : Character;
    ses_car : Car;
    ses_platform : string;
    ses_world : World }.

Definition RaceScreen (store : StoreState) (rs : RaceState) : Session :=
  let sel := useSafeSelection store in
  {| ses_theme := match track sel with Some t => t | None => TRACKS0 end;
     ses_character := match character sel with Some c => c | None => CHARACTERS0 end;
     ses_car := match car sel with Some c => c | None => CARS0 end;
     ses_platform := platform store;
     ses_world := {| race := resetRace (laps store) rs; kart := Kart_init |} |}.

Definition raceSession (store : StoreState) (rs : RaceState) (frames : list Frame)
    : World :=
  let ses := RaceScreen store rs in
  runFrames (ses_car ses) frames (ses_world ses).

(** ** The conditions of the specification *)

(** The two conditions the lap code tests on the numbers of a frame: the
    angle goes from negative to non-negative between two frames, and the
    radius is within half the ring's width of the centre line.  The first
    is a bare change of sign: it holds of a frame that crosses the positive
    x axis (the start line) upwards, and as well of a frame that jumps from
    just above -PI to just below PI across the negative x axis. *)
Definition crossesZero (angPrev ang : num) : Prop :=
  exists a0 a1 : R, angPrev = Some a0 /\ ang = Some a1 /\ a0 < 0 /\ 0 <= a1.

Definition nearCentreLine (innerR_ outerR_ : R) (r : num) : Prop :=
  exists r0 : R,
    r = Some r0 /\ Rabs (r0 - (innerR_ + outerR_) / 2) < (outerR_ - innerR_) / 2.

(** The finished flag says that the lap counter has passed the target. *)
Definition latched (s : RaceState) : Prop :=
  finished s = (totalLaps s <? currentLap s)%Z.

(** ** Worlds and frames the examples below run *)

(** The race store of a three-lap session that has just been mounted. *)
Definition race3 : RaceState := resetRace 3 useRaceStore.

Definition throttle : Controls := mkControls false false true false.

(** A frame of 0.05 s with the throttle held, half a second after the
    clock read 100. *)
Definition frame_throttle : Frame := mkFrame 0.05 100.5 (Some throttle).

(** The kart at full speed just above the negative x axis (the half-way
    line), heading straight down across it; it was boosted at clock 100. *)
Definition kart_above_half_line : Kart :=
  {| vel := 28; yaw := - (PI / 2);
     pos := Some (THREE.mkVector3 (-17) 0.35 0.7);
     lastAngle := Some (atan2 0.7 (-17));
     checkpoint := false;
     lastBoostTime := 100 |}.

Definition world_above_half_line : World :=
  {| race := race3; kart := kart_above_half_line |}.

(** The kart at full speed on the negative x axis, inside the boost window
    centred at PI, heading along the axis; its last boost is long past. *)
Definition kart_on_pad : Kart :=
  {| vel := 28; yaw := 0;
     pos := Some (THREE.mkVector3 (-17) 0.35 0);
     lastAngle := Some PI;
     checkpoint := false;
     lastBoostTime := 0 |}.

Definition world_on_pad : World := {| race := race3; kart := kart_on_pad |}.

(** The kart forced outside the ring, at full speed on the positive x axis
    and heading outward: the frame's integration step takes it to radius 30. *)
Definition kart_off_track : Kart :=
  {| vel := 28; yaw := 0;
     pos := Some (THREE.mkVector3 28.6 0.35 0);
     lastAngle := Some 0;
     checkpoint := false;
     lastBoostTime := 100 |}.

Definition world_off_track : World := {| race := race3; kart := kart_off_track |}.

(** A frame of no duration (the clock has not advanced since the frame
    before), with no control held: the speed and the position stay as they
    are up to the boundary code. *)
Definition frame_still : Frame := mkFrame 0 100.5 None.

(** The kart at rest at the centre of the track. *)
Definition kart_at_centre : Kart :=
  {| vel := 0; yaw := 0;
     pos := Some (THREE.mkVector3 0 0.35 0);
     lastAngle := Some 0;
     checkpoint := false;
     lastBoostTime := 100 |}.

Definition world_at_centre : World := {| race := race3; kart := kart_at_centre |}.

(** The kart at rest on the positive x axis, at the distance 2^-30 (below
    1e-6) from the centre. *)
Definition kart_near_centre : Kart :=
  {| vel := 0; yaw := 0;
     pos := Some (THREE.mkVector3 (1 / 1073741824) 0.35 0);
     lastAngle := Some 0;
     checkpoint := false;
     lastBoostTime := 100 |}.

Definition world_near_centre : World :=
  {| race := race3; kart := kart_near_centre |}.

(** The kart at full speed at [(x0, -0.7)], heading straight up (towards
    positive z) across the x axis; it was boosted at clock 100.  With the
    throttle held for 0.05 s it ends at [(x0, 0.7)]. *)
Definition kart_heading_up (x0 : R) (cp : bool) : Kart :=
  {| vel := 28; yaw := PI / 2;
     pos := Some (THREE.mkVector3 x0 0.35 (-0.7));
     lastAngle := Some (atan2 (-0.7) x0);
     checkpoint := cp;
     lastBoostTime := 100 |}.

(** Just below the half-way line (the negative x axis), with the
    checkpoint flag armed, in a fresh three-lap race. *)
Definition world_armed_below_half_line : World :=
  {| race := race3; kart := kart_heading_up (-17) true |}.

(** *** Rolling back onto the half-way line

    The kart is just below the negative x axis at radius 21 (outside the
    radial band of the boost windows), heading straight down with a small
    forward speed.  A frame of 0.05 s with no control lets it roll back
    onto the axis. *)
Definition kart_on_half_line (lb : R) : Kart :=
  {| vel := - (57 / 1750); yaw := - (PI / 2);
     pos := Some (THREE.mkVector3 (-21) 0.35 0);
     lastAngle := Some PI;
     checkpoint := false;
     lastBoostTime := lb |}.

Definition kart_below_half_line (lb : R) : Kart :=
  {| vel := 57 / 700; yaw := - (PI / 2);
     pos := Some (THREE.mkVector3 (-21) 0.35 (- (57 / 35000)));
     lastAngle := Some (atan2 (- (57 / 35000)) (-21));
     checkpoint := false;
     lastBoostTime := lb |}.

Definition frame_back (t : R) : Frame := mkFrame 0.05 t None.

(** *** Standing on the start line

    [n] frames of 0.05 s with no control, the clock running from [t]. *)
Fixpoint idleFrames (t : R) (n : nat) : list Frame :=
  match n with
  | O => []
  | S n' => mkFrame 0.05 (t + 0.05) None :: idleFrames (t + 0.05) n'
  end.

(** The kart on the positive x axis, heading along it, as [k] idle frames
    leave the kart of a fresh session with the first car. *)
Definition kart_idle (k : nat) : Kart :=
  {| vel := - (0.114 * INR k); yaw := 0;
     pos := Some (THREE.mkVector3 (17 - 0.00285 * INR k * (INR k + 1)) 0.35 0);
     lastAngle := Some 0;
     checkpoint := false;
     lastBoostTime := 0 |}.

(** The kart just below the half-way line in a fresh three-lap race. *)
Definition world_below_half_line : World :=
  {| race := race3; kart := kart_below_half_line 0 |}.

(** A three-lap race that is finished, and in it the kart just below the
    start line (the positive x axis) with the checkpoint flag armed. *)



(** ** Further notions the properties below use *)

(** The number of frames of a run in which a boost pad fires. *)
Fixpoint countBoosts (carStats : Car) (frames : list Frame) (w : World) : nat :=
  match frames with
  | [] => O
  | fr :: frames' =>
      ((if boostFires carStats fr w then 1 else 0)
       + countBoosts carStats frames' (tick carStats fr w))%nat
  end.

(** The angle the last frame computed is strictly between [-Math.PI] and
    [Math.PI], or is no number: the values on which both comparisons of the
    half-lap test, [ang >= Math.PI] and [ang <= -Math.PI], are false. *)
Definition awayFromHalfAngle (w : World) : Prop :=
  match lastAngle (kart w) with
  | Some a => - PI < a < PI
  | None => True
  end.

(** The kart is on the ring of the race store, at the height it started at. *)
Definition onRing (w : World) : Prop :=
  exists p : THREE.Vector3,
    pos (kart w) = Some p /\
    innerR (race w) <= hypot (THREE.x p) (THREE.z p) <= outerR (race w) /\
    THREE.y p = 0.35.

(** A world whose kart position is [NaN]. *)
Definition world_lost : World :=
  {| race := race3;
     kart := {| vel := 0; yaw := 0; pos := None; lastAngle := NaN;
                checkpoint := false; lastBoostTime := 0 |} |}.

(** ** The remaining utilities *)

(** [function lerp(a, b, t) { return a + (b - a) * t; }] *)
Definition lerp (a b t : R) : R := a + (b - a) * t.

(** [function angleLerp(a, b, t)]:
    [let diff = ((b - a + Math.PI) % (2 * Math.PI)) - Math.PI;
     return a + diff * t;] *)
Definition angleLerp (a b t : R) : R :=
  let diff := Rrem (b - a + PI) (2 * PI) - PI in
  a + diff * t.

(** [function radToDeg(rad){ return (rad * 180) / Math.PI; }] *)
Definition radToDeg (rad : R) : R := (rad * 180) / PI.

(** [makeSafeSelection] on any argument: [sel &&] sends [undefined] to the
    defaults. *)
Definition makeSafeSelectionJS (sel : option Selection) : Selection :=
  match sel with
  | Some s => makeSafeSelection s
  | None =>
      {| character := Some CHARACTERS0; car := Some CARS0;
         track := Some TRACKS0; sel_laps := DEFAULT_LAPS |}
  end.

(** ** Keyboard controls ([useKeyboardControls]) *)

(** [keys.includes(e.key)] *)
Definition includes (keys : list string) (key : string) : bool :=
  existsb (String.eqb key) keys.

Definition leftKeys : list string := ["ArrowLeft"%string; "a"%string; "A"%string].
Definition rightKeys : list string := ["ArrowRight"%string; "d"%string; "D"%string].
Definition upKeys : list string := ["ArrowUp"%string; "w"%string; "W"%string].
Definition downKeys : list string := ["ArrowDown"%string; "s"%string; "S"%string].

(** The [keydown] listener's four updates [setKeys((k) => ({ ...k, left: true }))],
    one after the other, on the state [keys]. *)
Definition keydown (key : string) (k : Controls) : Controls :=
  let k := if includes leftKeys key
           then mkControls true (right k) (up k) (down k) else k in
  let k := if includes rightKeys key
           then mkControls (left k) true (up k) (down k) else k in
  let k := if includes upKeys key
           then mkControls (left k) (right k) true (down k) else k in
  if includes downKeys key
  then mkControls (left k) (right k) (up k) true else k.

(** The [keyup] listener. *)
Definition keyup (key : string) (k : Controls) : Controls :=
  let k := if includes leftKeys key
           then mkControls false (right k) (up k) (down k) else k in
  let k := if includes rightKeys key
           then mkControls (left k) false (up k) (down k) else k in
  let k := if includes upKeys key
           then mkControls (left k) (right k) false (down k) else k in
  if includes downKeys key
  then mkControls (left k) (right k) (up k) false else k.

(** [e.key === "Escape" || e.key === "p" || e.key === "P"] *)
Definition requestsSettings (key : string) : bool :=
  String.eqb key "Escape" || String.eqb key "p" || String.eqb key "P".

Inductive KeyEvent : Type :=
| Keydown (key : string)
| Keyup (key : string).

(** The state the listeners write: the hook's [keys] and the store's
    [showSettings]. *)
Record Keyboard : Type := mkKeyboard
  { keys : Controls; showSettings : bool }.

(** One event, for [useKeyboardControls(enabled)]: without [enabled] no
    listener is attached. *)
Definition handleKey (enabled : bool) (e : KeyEvent) (s : Keyboard) : Keyboard :=
  if enabled then
    match e with
    | Keydown key =>
        {| keys := keydown key (keys s);
           showSettings := if requestsSettings key then true else showSettings s |}
    | Keyup key =>
        {| keys := keyup key (keys s); showSettings := showSettings s |}
    end
  else s.

(** The four controls by name, and the keys bound to each. *)
Inductive Direction : Type := Left | Right | Up | Down.

Definition Direction_eqb (d1 d2 : Direction) : bool :=
  match d1, d2 with
  | Left, Left | Right, Right | Up, Up | Down, Down => true
  | _, _ => false
  end.

Definition keysOf (d : Direction) : list string :=
  match d with
  | Left => leftKeys | Right => rightKeys | Up => upKeys | Down => downKeys
  end.

Definition flag (d : Direction) (k : Controls) : bool :=
  match d with
  | Left => left k | Right => right k | Up => up k | Down => down k
  end.

(** ** The platform *)

(** The platforms the settings offer. *)
Definition PLATFORMS : list string :=
  ["Laptop"%string; "iPad"%string; "iPhone"%string].

(** [String.prototype.toLowerCase], on ASCII text. *)
Definition toLowerAscii (c : Ascii.ascii) : Ascii.ascii :=
  let n := Ascii.nat_of_ascii c in
  if ((65 <=? n) && (n <=? 90))%nat then Ascii.ascii_of_nat (n + 32) else c.

Fixpoint toLowerCase (s : string) : string :=
  match s with
  | EmptyString => EmptyString
  | String c s' => String (toLowerAscii c) (toLowerCase s')
  end.

(** [/pattern/.test(s)] for a pattern of plain letters: is it a substring? *)
Definition regexTest (pattern s : string) : bool :=
  match String.index 0 pattern s with Some _ => true | None => false end.

(** The platform guess of [HyperKart3D]'s mount effect; [None] when there
    is no [navigator]. *)
Definition detectPlatform (userAgent : option string) : string :=
  let ua := toLowerCase (match userAgent with Some u => u | None => ""%string end) in
  if regexTest "iphone" ua then "iPhone"%string
  else if regexTest "ipad" ua || regexTest "tablet" ua then "iPad"%string
  else "Laptop"%string.

(** [useKeyboardControls(platform === "Laptop")] *)
Definition keyboardEnabled (platform_ : string) : bool :=
  String.eqb platform_ "Laptop".

(** [(platform === "iPad" || platform === "iPhone") && <TouchPad ... />] *)
Definition touchPadShown (platform_ : string) : bool :=
  String.eqb platform_ "iPad" || String.eqb platform_ "iPhone".

(** ** The stat bars ([Stat]) *)

(** [const p = clamp(v/max, 0, 1);] and the width [p*100] percent. *)
Definition Stat_p (v max : R) : R := clamp (v / max) 0 1.
Definition Stat_width (v max : R) : R := Stat_p v max * 100.

(** The three bars of a car on [CarScreen]. *)
Definition carStatBars (c : Car) : list R :=
  [ Stat_width (accel c) 10;
    Stat_width (maxSpeed c / 4) 10;
    Stat_width (handling c * 10) 12 ].

(** ** The camera rig ([CameraRig]) *)

(** What [Kart] writes to the scene at the end of its callback:
    [group.current.position.copy(pos.current)] and
    [group.current.rotation.y = -yaw.current + Math.PI/2]. *)
Record Object3D : Type := mkObject3D
  { position : THREE.Vector3; rotation_y : R }.

Definition writeToScene (k : Kart) : option Object3D :=
  match pos k with
  | Some p => Some {| position := p; rotation_y := - yaw k + PI / 2 |}
  | None => None
  end.

(** [Vector3.lerp(v, alpha)] of three.js: [this.x += (v.x - this.x) * alpha],
    and so for [y] and [z]. *)
Definition Vector3_lerp (c v : THREE.Vector3) (alpha : R) : THREE.Vector3 :=
  THREE.mkVector3 (THREE.x c + (THREE.x v - THREE.x c) * alpha)
                  (THREE.y c + (THREE.y v - THREE.y c) * alpha)
                  (THREE.z c + (THREE.z v - THREE.z c) * alpha).

(** [offset.current], never written: [new THREE.Vector3(0, 5, 8)]. *)
Definition cameraOffset : THREE.Vector3 := THREE.mkVector3 0 5 8.

(** [desired]: the target's position (the origin without a target), plus
    [behind] scaled by [offset.z], plus [offset.y] upwards, where
    [behind = (sin(rotation.y), 0, cos(rotation.y))]. *)
Definition desiredCamera (target : option Object3D) : THREE.Vector3 :=
  let t := match target with
           | Some o => position o
           | None => THREE.mkVector3 0 0 0
           end in
  let ry := match target with Some o => rotation_y o | None => 0 end in
  let behind := THREE.mkVector3 (sin ry) 0 (cos ry) in
  THREE.mkVector3
    (THREE.x t + THREE.x behind * THREE.z cameraOffset + 0)
    (THREE.y t + THREE.y behind * THREE.z cameraOffset + THREE.y cameraOffset)
    (THREE.z t + THREE.z behind * THREE.z cameraOffset + 0).

(** [camera.position.lerp(desired, 1 - Math.pow(0.001, dt))] *)
Definition cameraFrame (dt : R) (target : option Object3D)
    (camera : THREE.Vector3) : THREE.Vector3 :=
  Vector3_lerp camera (desiredCamera target) (1 - Rpower 0.001 dt).

(** ** The stadium seats ([Stadium]) *)

Record Seat : Type := mkSeat
  { seat_x : R; seat_z : R; seat_a : R; seat_r : R }.

(** [const count = Math.floor(2 * Math.PI * r / 2.5);] *)
Definition seatCount (r : R) : Z := Int_part (2 * PI * r / 2.5).

(** The inner loop: [for (let i = 0; i < count; i++)] with
    [a = (i / count) * Math.PI * 2], [x = Math.cos(a) * r],
    [z = Math.sin(a) * r]. *)
Definition seatRing (r : R) : list Seat :=
  let count := seatCount r in
  map (fun i : nat =>
         let a := (INR i / IZR count) * PI * 2 in
         mkSeat (cos a * r) (sin a * r) a r)
      (seq 0 (Z.to_nat count)).

(** The outer loop, [rings = 4]:
    [for (let r = outerR + 1; r < outerR + 1 + rings; r++)]. *)
Definition seats (outerR_ : R) : list Seat :=
  flat_map seatRing
           [outerR_ + 1; outerR_ + 1 + 1; outerR_ + 1 + 1 + 1;
            outerR_ + 1 + 1 + 1 + 1].

(** * Properties *)

(** ** Comparisons, [clamp], [hypot], [atan2] *)

Lemma Rltb_true_iff (a b : R) : Rltb a b = true <-> a < b.
Proof. unfold Rltb; destruct (Rlt_dec a b); split; intros; try easy. Qed.

Lemma Rltb_false_iff (a b : R) : Rltb a b = false <-> b <= a.
Proof.
  unfold Rltb; destruct (Rlt_dec a b); split; intros; try easy; lra.
Qed.

Lemma Rleb_true_iff (a b : R) : Rleb a b = true <-> a <= b.
Proof. unfold Rleb; destruct (Rle_dec a b); split; intros; try easy. Qed.

Lemma Rleb_false_iff (a b : R) : Rleb a b = false <-> b < a.
Proof.
  unfold Rleb; destruct (Rle_dec a b); split; intros; try easy; lra.
Qed.

Lemma Rltb_true (a b : R) : a < b -> Rltb a b = true.
Proof. apply Rltb_true_iff. Qed.

Lemma Rltb_false (a b : R) : b <= a -> Rltb a b = false.
Proof. apply Rltb_false_iff. Qed.

Lemma Rleb_true (a b : R) : a <= b -> Rleb a b = true.
Proof. apply Rleb_true_iff. Qed.

Lemma Rleb_false (a b : R) : b < a -> Rleb a b = false.
Proof. apply Rleb_false_iff. Qed.

Lemma clamp_bounds (v lo hi : R) : lo <= hi -> lo <= clamp v lo hi <= hi.
Proof.
  intros H; unfold clamp, Rmin, Rmax.
  destruct (Rle_dec lo v); destruct (Rle_dec hi _); lra.
Qed.

Lemma clamp_id (v lo hi : R) : lo <= v <= hi -> clamp v lo hi = v.
Proof.
  intros H; unfold clamp, Rmin, Rmax.
  destruct (Rle_dec lo v); destruct (Rle_dec hi _); lra.
Qed.

Lemma clamp_hi (v lo hi : R) : lo <= hi -> hi <= v -> clamp v lo hi = hi.
Proof.
  intros H1 H2; unfold clamp, Rmin, Rmax.
  destruct (Rle_dec lo v); destruct (Rle_dec hi _); lra.
Qed.

Lemma hypot_nonneg (x z : R) : 0 <= hypot x z.
Proof. unfold hypot; apply sqrt_pos. Qed.

Lemma hypot_sqr (x z : R) : hypot x z * hypot x z = x * x + z * z.
Proof. unfold hypot; apply sqrt_sqrt; nra. Qed.

Lemma hypot_unique (x z r : R) : 0 <= r -> r * r = x * x + z * z -> hypot x z = r.
Proof.
  intros Hr H. pose proof (hypot_nonneg x z) as Hn.
  pose proof (hypot_sqr x z) as Hs. nra.
Qed.

Lemma hypot_zero (x z : R) : hypot x z = 0 -> x = 0 /\ z = 0.
Proof.
  intros H. pose proof (hypot_sqr x z) as Hs. rewrite H in Hs. split; nra.
Qed.

Lemma hypot_axis (x : R) : hypot x 0 = Rabs x.
Proof.
  apply hypot_unique; [apply Rabs_pos|].
  unfold Rabs; destruct (Rcase_abs x); lra.
Qed.

(** Scaling a position to a target radius puts it at that radius. *)
Lemma hypot_rescale (x z t : R) :
  0 <= t -> hypot x z <> 0 ->
  hypot (x * (t / hypot x z)) (z * (t / hypot x z)) = t.
Proof.
  intros Ht Hr. apply hypot_unique; [exact Ht|].
  pose proof (hypot_sqr x z) as Hs.
  set (r := hypot x z) in *.
  replace (x * (t / r) * (x * (t / r)) + z * (t / r) * (z * (t / r)))
    with ((x * x + z * z) * (t * t) / (r * r)) by (field; exact Hr).
  rewrite <- Hs. field. exact Hr.
Qed.

Lemma atan2_range (y x : R) : - PI < atan2 y x <= PI.
Proof.
  unfold atan2. pose proof PI_RGT_0 as HPI.
  destruct (Rlt_dec 0 x) as [Hx|Hx].
  - pose proof (atan_bound (y / x)). lra.
  - destruct (Rlt_dec x 0) as [Hx'|Hx'].
    + destruct (Rle_dec 0 y) as [Hy|Hy].
      * assert (y / x <= 0).
        { unfold Rdiv. assert (/ x < 0) by (apply Rinv_lt_0_compat; exact Hx'). nra. }
        pose proof (atan_bound (y / x)).
        assert (atan (y / x) <= 0).
        { destruct H as [H|H].
          - left. rewrite <- atan_0. apply atan_increasing. exact H.
          - rewrite H, atan_0. lra. }
        lra.
      * assert (0 < y / x).
        { unfold Rdiv. assert (/ x < 0) by (apply Rinv_lt_0_compat; exact Hx'). nra. }
        pose proof (atan_bound (y / x)).
        assert (0 < atan (y / x)).
        { rewrite <- atan_0. apply atan_increasing. exact H. }
        lra.
    + destruct (Rlt_dec 0 y); [lra|]. destruct (Rlt_dec y 0); lra.
Qed.

(** Below the x axis the angle is negative, above it positive. *)
Lemma atan2_neg (y x : R) : y < 0 -> atan2 y x < 0.
Proof.
  intros Hy. unfold atan2. pose proof PI_RGT_0 as HPI.
  destruct (Rlt_dec 0 x) as [Hx|Hx].
  - rewrite <- atan_0. apply atan_increasing.
    unfold Rdiv. assert (0 < / x) by (apply Rinv_0_lt_compat; exact Hx). nra.
  - destruct (Rlt_dec x 0) as [Hx'|Hx'].
    + destruct (Rle_dec 0 y); [lra|].
      pose proof (atan_bound (y / x)). lra.
    + destruct (Rlt_dec 0 y); [lra|]. destruct (Rlt_dec y 0); lra.
Qed.

Lemma atan2_pos (y x : R) : 0 < y -> 0 < atan2 y x.
Proof.
  intros Hy. unfold atan2. pose proof PI_RGT_0 as HPI.
  destruct (Rlt_dec 0 x) as [Hx|Hx].
  - rewrite <- atan_0. apply atan_increasing.
    unfold Rdiv. assert (0 < / x) by (apply Rinv_0_lt_compat; exact Hx). nra.
  - destruct (Rlt_dec x 0) as [Hx'|Hx'].
    + destruct (Rle_dec 0 y); [|lra].
      pose proof (atan_bound (y / x)). lra.
    + destruct (Rlt_dec 0 y); lra.
Qed.

(** On the x axis: angle 0 on the positive side, PI on the negative side. *)
Lemma atan2_axis_pos (x : R) : 0 < x -> atan2 0 x = 0.
Proof.
  intros Hx. unfold atan2. destruct (Rlt_dec 0 x); [|lra].
  unfold Rdiv. rewrite Rmult_0_l. apply atan_0.
Qed.

Lemma atan2_axis_neg (x : R) : x < 0 -> atan2 0 x = PI.
Proof.
  intros Hx. unfold atan2. destruct (Rlt_dec 0 x); [lra|].
  destruct (Rlt_dec x 0); [|lra]. destruct (Rle_dec 0 0); [|lra].
  unfold Rdiv. rewrite Rmult_0_l, atan_0. lra.
Qed.

Lemma hypot_lt (x z b : R) : 0 <= b -> x * x + z * z < b * b -> hypot x z < b.
Proof.
  intros Hb H. pose proof (hypot_nonneg x z). pose proof (hypot_sqr x z). nra.
Qed.

Lemma hypot_gt (x z a : R) : 0 <= a -> a * a < x * x + z * z -> a < hypot x z.
Proof.
  intros Ha H. pose proof (hypot_nonneg x z). pose proof (hypot_sqr x z). nra.
Qed.

(** In the left half plane the angle is beyond a quarter turn. *)
Lemma atan2_left_upper (y x : R) : x < 0 -> 0 < y -> PI / 2 < atan2 y x < PI.
Proof.
  intros Hx Hy. unfold atan2.
  destruct (Rlt_dec 0 x); [lra|]. destruct (Rlt_dec x 0); [|lra].
  destruct (Rle_dec 0 y); [|lra].
  assert (y / x < 0).
  { unfold Rdiv. assert (/ x < 0) by (apply Rinv_lt_0_compat; exact Hx). nra. }
  assert (atan (y / x) < 0) by (rewrite <- atan_0; apply atan_increasing; assumption).
  pose proof (atan_bound (y / x)). lra.
Qed.

Lemma atan2_left_lower (y x : R) : x < 0 -> y < 0 -> - PI < atan2 y x < - (PI / 2).
Proof.
  intros Hx Hy. unfold atan2.
  destruct (Rlt_dec 0 x); [lra|]. destruct (Rlt_dec x 0); [|lra].
  destruct (Rle_dec 0 y); [lra|].
  assert (0 < y / x).
  { unfold Rdiv. assert (/ x < 0) by (apply Rinv_lt_0_compat; exact Hx). nra. }
  assert (0 < atan (y / x)) by (rewrite <- atan_0; apply atan_increasing; assumption).
  pose proof (atan_bound (y / x)). lra.
Qed.

(** ** The half-lap checkpoint *)

(** On an angle in (-PI, PI] the test succeeds at PI only. *)
Lemma crossedHalf_true_inv (angPrev : num) (a : R) :
  - PI < a <= PI -> crossedHalf angPrev (Some a) = true -> a = PI.
Proof.
  intros Ha H. unfold crossedHalf in H.
  apply orb_true_iff in H. destruct H as [H|H]; apply andb_true_iff in H;
    destruct H as [_ H]; unfold num_ge, num_le in H;
    apply Rleb_true_iff in H; lra.
Qed.

Lemma crossedHalf_off_axis (angPrev : num) (a : R) :
  - PI < a < PI -> crossedHalf angPrev (Some a) = false.
Proof.
  intros Ha. destruct (crossedHalf angPrev (Some a)) eqn:E; [|reflexivity].
  apply crossedHalf_true_inv in E; lra.
Qed.

Lemma clampDt_small (dt : R) : dt <= 0.05 -> clampDt dt = dt.
Proof. intros H; unfold clampDt; destruct (Rlt_dec 0.05 dt); lra. Qed.

Lemma trackBoundary_inside (i o r v : R) (p : option THREE.Vector3) :
  i <= r <= o -> trackBoundary i o (Some r) (p, v) = (p, v).
Proof.
  intros H. unfold trackBoundary, num_gt, num_lt.
  rewrite (Rltb_false r i), (Rltb_false o r) by lra. reflexivity.
Qed.

Lemma above_half_line_vel :
  velAfterDynamics CARS0 frame_throttle world_above_half_line = 28.
Proof.
  unfold velAfterDynamics, longitudinal. simpl.
  rewrite clampDt_small by lra. apply clamp_hi; lra.
Qed.

Lemma above_half_line_yaw :
  yawAfterSteering CARS0 frame_throttle world_above_half_line = - (PI / 2).
Proof. reflexivity. Qed.

Lemma above_half_line_pos :
  posAfterIntegration CARS0 frame_throttle world_above_half_line
  = Some (THREE.mkVector3 (-17) 0.35 (-0.7)).
Proof.
  unfold posAfterIntegration. rewrite above_half_line_yaw, above_half_line_vel.
  simpl. rewrite clampDt_small by lra.
  rewrite cos_neg, sin_neg, cos_PI2, sin_PI2. f_equal. f_equal; lra.
Qed.

Lemma above_half_line_boundary :
  afterBoundary CARS0 frame_throttle world_above_half_line
  = (Some (THREE.mkVector3 (-17) 0.35 (-0.7)), 28).
Proof.
  unfold afterBoundary, frameRadius.
  rewrite above_half_line_pos, above_half_line_vel. simpl.
  apply trackBoundary_inside. split; left.
  - apply hypot_gt; lra.
  - apply hypot_lt; lra.
Qed.

Lemma above_half_line_angle :
  frameAngle CARS0 frame_throttle world_above_half_line
  = Some (atan2 (-0.7) (-17)).
Proof. unfold frameAngle. rewrite above_half_line_boundary. reflexivity. Qed.

(** C1 (the code departs from the claim).  The kart is just above the
    negative x axis, at an angle between PI/2 and PI; one frame later it is
    just below the axis, at an angle between -PI and -PI/2: it has crossed
    the discontinuity of the angle at the half-way line.  The frame leaves
    [checkpoint.current] false. *)
Theorem C1_crossing_half_line_leaves_checkpoint_unarmed :
  let w' := tick CARS0 frame_throttle world_above_half_line in
  exists a0 a1 : R,
    lastAngle (kart world_above_half_line) = Some a0 /\
    lastAngle (kart w') = Some a1 /\
    PI / 2 < a0 < PI /\ - PI < a1 < - (PI / 2) /\
    checkpoint (kart world_above_half_line) = false /\
    checkpoint (kart w') = false.
Proof.
  exists (atan2 0.7 (-17)), (atan2 (-0.7) (-17)).
  pose proof (atan2_left_upper 0.7 (-17)) as Hu.
  pose proof (atan2_left_lower (-0.7) (-17)) as Hl.
  repeat split; try lra.
  - simpl. apply above_half_line_angle.
  - simpl. unfold lapCompleted, armed.
    rewrite above_half_line_angle. simpl lastAngle. simpl checkpoint.
    rewrite crossedHalf_off_axis by lra.
    rewrite andb_false_r. reflexivity.
Qed.

(** ** [normalizeAngle] *)

Lemma Rtrunc_small (a : R) : -1 < a < 1 -> Rtrunc a = 0%Z.
Proof.
  intros H. unfold Rtrunc. destruct (Rle_dec 0 a).
  - symmetry. apply Int_part_spec. simpl. lra.
  - destruct (Req_dec_T a 0) as [E|E]; [lra|].
    assert (Int_part (- a) = 0%Z) as ->; [|reflexivity].
    symmetry. apply Int_part_spec. simpl. lra.
Qed.

Lemma Rrem_small (a m : R) : 0 < m -> - m < a < m -> Rrem a m = a.
Proof.
  intros Hm H. unfold Rrem. rewrite Rtrunc_small; [simpl; lra|].
  assert (0 < / m) by (apply Rinv_0_lt_compat; exact Hm).
  unfold Rdiv. split.
  - assert (- m * / m < a * / m) by (apply Rmult_lt_compat_r; lra).
    replace (- m * / m) with (-1) in * by (field; lra). lra.
  - assert (a * / m < m * / m) by (apply Rmult_lt_compat_r; lra).
    replace (m * / m) with 1 in * by (field; lra). lra.
Qed.

Lemma normalizeAngleR_id (a : R) : - PI <= a <= PI -> normalizeAngleR a = a.
Proof.
  intros H. pose proof PI_RGT_0. unfold normalizeAngleR.
  rewrite Rrem_small by lra.
  destruct (Rlt_dec a (- PI)); [lra|]. destruct (Rlt_dec PI a); lra.
Qed.

Lemma normalizeAngleR_wrap_up (a : R) :
  - (2 * PI) < a < - PI -> normalizeAngleR a = a + 2 * PI.
Proof.
  intros H. pose proof PI_RGT_0. unfold normalizeAngleR.
  rewrite Rrem_small by lra.
  destruct (Rlt_dec a (- PI)); [|lra]. destruct (Rlt_dec PI (a + 2 * PI)); lra.
Qed.

(** ** The boost pads *)

(** The loop over the pads boosts at most once: the first pad that fires
    records [elapsed], and the cooldown test of the following pads fails. *)
Lemma boostPads_spec (m i o : R) (ang r : num) (elapsed v lb : R) :
  boostPads m i o ang r elapsed (v, lb)
  = if onAnyPad i o ang r && Rltb 1.0 (elapsed - lb)
    then (Rmin (m * 1.2) (v + 8), elapsed)
    else (v, lb).
Proof.
  assert (Hself : Rltb 1.0 (elapsed - elapsed) = false)
    by (apply Rltb_false; lra).
  unfold boostPads, onAnyPad, pads. simpl.
  unfold boostPad.
  destruct (Rltb 1.0 (elapsed - lb)) eqn:Hc; simpl;
    destruct (onPad i o ang r (PI / 4));
    destruct (onPad i o ang r PI);
    destruct (onPad i o ang r (3 * PI / 2));
    repeat (cbn [fst snd andb orb]; rewrite ?Hc, ?Hself);
    reflexivity.
Qed.

Lemma on_pad_vel : velAfterDynamics CARS0 frame_throttle world_on_pad = 28.
Proof.
  unfold velAfterDynamics, longitudinal. simpl.
  rewrite clampDt_small by lra. apply clamp_hi; lra.
Qed.

Lemma on_pad_pos :
  posAfterIntegration CARS0 frame_throttle world_on_pad
  = Some (THREE.mkVector3 (-15.6) 0.35 0).
Proof.
  unfold posAfterIntegration.
  replace (yawAfterSteering CARS0 frame_throttle world_on_pad) with 0
    by reflexivity.
  rewrite on_pad_vel. simpl. rewrite clampDt_small by lra.
  rewrite cos_0, sin_0. f_equal. f_equal; lra.
Qed.

Lemma on_pad_radius :
  frameRadius CARS0 frame_throttle world_on_pad = Some 15.6.
Proof.
  unfold frameRadius. rewrite on_pad_pos. simpl. f_equal.
  rewrite hypot_axis. unfold Rabs. destruct (Rcase_abs (-15.6)); lra.
Qed.

Lemma on_pad_boundary :
  afterBoundary CARS0 frame_throttle world_on_pad
  = (Some (THREE.mkVector3 (-15.6) 0.35 0), 28).
Proof.
  unfold afterBoundary. rewrite on_pad_radius, on_pad_pos, on_pad_vel.
  apply trackBoundary_inside. simpl. lra.
Qed.

Lemma on_pad_angle : frameAngle CARS0 frame_throttle world_on_pad = Some PI.
Proof.
  unfold frameAngle. rewrite on_pad_boundary. simpl.
  rewrite atan2_axis_neg by lra. reflexivity.
Qed.

Lemma on_pad_window : onAnyPad 12 22 (Some PI) (Some 15.6) = true.
Proof.
  unfold onAnyPad, pads. simpl. apply orb_true_iff. right.
  apply orb_true_iff. left. unfold onPad, padHalfWidth. simpl.
  pose proof PI_RGT_0.
  replace (PI - PI) with 0 by lra.
  rewrite normalizeAngleR_id by lra. rewrite Rabs_R0.
  rewrite Rltb_true by lra. simpl. apply Rltb_true.
  unfold Rabs. destruct (Rcase_abs _); lra.
Qed.

(** C2 (counterexample).  A sprinter ([maxSpeed] 28) at full speed inside
    the boost window at PI, throttle held, [dt] = 0.05: the frame ends with
    a forward speed of 33.6, above [maxSpeed]. *)
Lemma C2_boost_exceeds_maxSpeed :
  0 < delta frame_throttle <= 0.05 /\
  vel (kart (tick CARS0 frame_throttle world_on_pad)) = 33.6 /\
  ~ (- 0.3 * maxSpeed CARS0
       <= vel (kart (tick CARS0 frame_throttle world_on_pad))
       <= maxSpeed CARS0).
Proof.
  assert (E : vel (kart (tick CARS0 frame_throttle world_on_pad)) = 33.6).
  { simpl. rewrite boostPads_spec, on_pad_angle, on_pad_radius, on_pad_boundary.
    simpl. rewrite on_pad_window. rewrite Rltb_true by lra. simpl.
    unfold Rmin. destruct (Rle_dec _ _); lra. }
  split; [simpl; lra|]. split; [exact E|]. rewrite E. simpl. lra.
Qed.

(** ** The forward speed *)

Lemma longitudinal_bounds (carStats : Car) (c : Controls) (dt v : R) :
  0 <= maxSpeed carStats ->
  - maxSpeed carStats * 0.3 <= longitudinal carStats c dt v <= maxSpeed carStats.
Proof.
  intros Hm. unfold longitudinal.
  destruct (down c); destruct (up c); apply clamp_bounds; lra.
Qed.

Lemma trackBoundary_vel_bounds (i o : R) (r : num) (p : option THREE.Vector3)
    (v m : R) :
  0 <= m -> - m * 0.3 <= v <= m ->
  - m * 0.3 <= snd (trackBoundary i o r (p, v)) <= m.
Proof.
  intros Hm Hv. unfold trackBoundary.
  destruct (num_lt r (Some i)); destruct (num_gt r (Some o)); simpl; lra.
Qed.

Lemma tick_vel (carStats : Car) (fr : Frame) (w : World) :
  vel (kart (tick carStats fr w))
  = if boostFires carStats fr w
    then Rmin (maxSpeed carStats * 1.2) (snd (afterBoundary carStats fr w) + 8)
    else snd (afterBoundary carStats fr w).
Proof.
  simpl. rewrite boostPads_spec. unfold boostFires.
  destruct (_ && _); reflexivity.
Qed.

Lemma tick_lastBoostTime (carStats : Car) (fr : Frame) (w : World) :
  lastBoostTime (kart (tick carStats fr w))
  = if boostFires carStats fr w then elapsedTime fr else lastBoostTime (kart w).
Proof.
  simpl. rewrite boostPads_spec. unfold boostFires.
  destruct (_ && _); reflexivity.
Qed.

(** C2 (amended).  For a car with a positive [maxSpeed], whatever the
    speed before the frame, the four controls and [dt]: the forward speed
    lies within [-0.3 * maxSpeed, maxSpeed] after the acceleration and
    braking code and after the track boundary code, and at the end of a
    frame in which no boost pad fires; at the end of every frame it lies
    within [-0.3 * maxSpeed, 1.2 * maxSpeed]. *)
Theorem C2_forwardSpeed_bounds (carStats : Car) (fr : Frame) (w : World) :
  0 < maxSpeed carStats ->
  let m := maxSpeed carStats in
  let v' := vel (kart (tick carStats fr w)) in
  (- 0.3 * m <= velAfterDynamics carStats fr w <= m) /\
  (- 0.3 * m <= snd (afterBoundary carStats fr w) <= m) /\
  (boostFires carStats fr w = false -> - 0.3 * m <= v' <= m) /\
  (- 0.3 * m <= v' <= 1.2 * m).
Proof.
  intros Hm m v'.
  assert (H1 : - m * 0.3 <= velAfterDynamics carStats fr w <= m).
  { apply longitudinal_bounds. lra. }
  assert (H2 : - m * 0.3 <= snd (afterBoundary carStats fr w) <= m).
  { unfold afterBoundary. apply trackBoundary_vel_bounds; [lra|exact H1]. }
  assert (E := tick_vel carStats fr w). fold v' in E. fold m in E.
  split; [lra|]. split; [lra|]. split.
  - intros Hb. rewrite Hb in E. lra.
  - destruct (boostFires carStats fr w); [|lra].
    rewrite E. unfold Rmin. destruct (Rle_dec _ _); lra.
Qed.

Lemma C2_forwardSpeed_bounds_witness :
  0 < maxSpeed CARS0 /\
  - 0.3 * maxSpeed CARS0
    <= vel (kart (tick CARS0 frame_throttle world_on_pad))
    <= 1.2 * maxSpeed CARS0.
Proof.
  assert (H : 0 < maxSpeed CARS0) by (simpl; lra).
  split; [exact H|].
  exact (proj2 (proj2 (proj2
    (C2_forwardSpeed_bounds CARS0 frame_throttle world_on_pad H)))).
Defined.

(** [a % m] differs from [a] by a multiple of [m] and is smaller than [m]
    in absolute value. *)
Lemma Rrem_spec (a m : R) :
  0 < m -> - m < Rrem a m < m /\ exists k : Z, Rrem a m = a + m * IZR k.
Proof.
  intros Hm. unfold Rrem, Rtrunc.
  assert (Ha : a = m * (a / m)) by (field; lra).
  destruct (Rle_dec 0 (a / m)) as [Hq|Hq].
  - destruct (base_Int_part (a / m)) as [H1 H2].
    set (q := IZR (Int_part (a / m))) in *.
    split.
    + assert (0 <= a / m - q < 1) as Hf by lra.
      replace (a - m * q) with (m * (a / m - q)) by (rewrite Rmult_minus_distr_l, <- Ha; ring).
      split; nra.
    + exists (- Int_part (a / m))%Z. rewrite opp_IZR. fold q. ring.
  - destruct (base_Int_part (- (a / m))) as [H1 H2].
    rewrite opp_IZR.
    set (q := IZR (Int_part (- (a / m)))) in *.
    split.
    + assert (-1 < a / m + q <= 0) as Hf by lra.
      replace (a - m * - q) with (m * (a / m + q)) by (rewrite Rmult_plus_distr_l, <- Ha; ring).
      split; nra.
    + exists (Int_part (- (a / m))). fold q. ring.
Qed.

(** [normalizeAngle] returns the representative of the angle in [-PI, PI]:
    its absolute value is the angular distance the pad test compares. *)
Lemma normalizeAngleR_spec (a : R) :
  - PI <= normalizeAngleR a <= PI /\
  exists k : Z, normalizeAngleR a = a + 2 * PI * IZR k.
Proof.
  pose proof PI_RGT_0 as HPI. unfold normalizeAngleR.
  destruct (Rrem_spec a (2 * PI)) as [Hb [k Hk]]; [lra|].
  set (x := Rrem a (2 * PI)) in *.
  destruct (Rlt_dec x (- PI)) as [H1|H1].
  - destruct (Rlt_dec PI (x + 2 * PI)) as [H2|H2]; [lra|].
    split; [lra|]. exists (k + 1)%Z. rewrite plus_IZR, Hk. simpl. ring.
  - destruct (Rlt_dec PI x) as [H2|H2].
    + split; [lra|]. exists (k - 1)%Z. rewrite minus_IZR, Hk. simpl. ring.
    + split; [lra|]. exists k. exact Hk.
Qed.

Lemma onPad_spec (i o ang r a : R) :
  onPad i o (Some ang) (Some r) a = true <->
  Rabs (normalizeAngleR (ang - a)) < padHalfWidth /\
  Rabs (r - (i + o) / 2) < (o - i) / 3.
Proof.
  unfold onPad. simpl. rewrite andb_true_iff, !Rltb_true_iff. tauto.
Qed.

Lemma onAnyPad_intro (i o : R) (ang r : num) (a : R) :
  In a pads -> onPad i o ang r a = true -> onAnyPad i o ang r = true.
Proof.
  intros Hin H. unfold onAnyPad. apply existsb_exists. exists a. tauto.
Qed.

Lemma on_pad_PI : onPad 12 22 (Some PI) (Some 15.6) PI = true.
Proof.
  apply onPad_spec. unfold padHalfWidth. pose proof PI_RGT_0.
  replace (PI - PI) with 0 by lra.
  rewrite normalizeAngleR_id by lra. rewrite Rabs_R0.
  split; [lra|]. unfold Rabs. destruct (Rcase_abs _); lra.
Qed.

(** C7.  In a frame that ends inside a boost window (the angular distance
    to the window's centre below [PI/12], the radial distance to the
    centre line below a third of the ring's width): if more than one second
    of clock time has passed since the kart's last boost, the speed becomes
    [min(maxSpeed * 1.2, v + 8)] and the clock time is recorded; otherwise
    the speed and the timestamp are left as they are.  There is one
    timestamp per kart, whichever the window. *)
Theorem C7_boost_pad_cooldown (carStats : Car) (fr : Frame) (w : World) (a : R) :
  In a pads ->
  onPad (innerR (race w)) (outerR (race w))
        (frameAngle carStats fr w) (frameRadius carStats fr w) a = true ->
  let v := snd (afterBoundary carStats fr w) in
  let w' := tick carStats fr w in
  (1.0 < elapsedTime fr - lastBoostTime (kart w) ->
     vel (kart w') = Rmin (maxSpeed carStats * 1.2) (v + 8) /\
     lastBoostTime (kart w') = elapsedTime fr) /\
  (elapsedTime fr - lastBoostTime (kart w) <= 1.0 ->
     vel (kart w') = v /\
     lastBoostTime (kart w') = lastBoostTime (kart w)).
Proof.
  intros Hin Hon v w'. unfold w'.
  rewrite tick_vel, tick_lastBoostTime. unfold boostFires.
  rewrite (onAnyPad_intro _ _ _ _ a Hin Hon). simpl.
  split; intros Hc.
  - rewrite Rltb_true by exact Hc. split; reflexivity.
  - rewrite Rltb_false by exact Hc. split; reflexivity.
Qed.

Lemma C7_boost_pad_cooldown_witness :
  vel (kart (tick CARS0 frame_throttle world_on_pad))
  = Rmin (maxSpeed CARS0 * 1.2) (28 + 8) /\
  lastBoostTime (kart (tick CARS0 frame_throttle world_on_pad)) = 100.5.
Proof.
  assert (Hin : In PI pads) by (simpl; tauto).
  assert (Hon : onPad (innerR (race world_on_pad)) (outerR (race world_on_pad))
                  (frameAngle CARS0 frame_throttle world_on_pad)
                  (frameRadius CARS0 frame_throttle world_on_pad) PI = true).
  { rewrite on_pad_angle, on_pad_radius. exact on_pad_PI. }
  assert (Hc : 1.0 < elapsedTime frame_throttle - lastBoostTime (kart world_on_pad))
    by (simpl; lra).
  pose proof (proj1 (C7_boost_pad_cooldown CARS0 frame_throttle world_on_pad PI
                       Hin Hon) Hc) as H.
  rewrite on_pad_boundary in H. exact H.
Defined.

(** ** The track boundary *)

Lemma tick_pos (carStats : Car) (fr : Frame) (w : World) :
  pos (kart (tick carStats fr w)) = fst (afterBoundary carStats fr w).
Proof. reflexivity. Qed.

(** Off the centre and on a ring with [0 <= i <= o], the boundary code is a
    three-way case on the radius [r] of the position. *)
Lemma trackBoundary_spec (i o v : R) (p : THREE.Vector3) :
  let r := hypot (THREE.x p) (THREE.z p) in
  0 < r -> i <= o ->
  trackBoundary i o (Some r) (Some p, v)
  = if Rlt_dec r i
    then (Some (THREE.mkVector3 (THREE.x p * (i / r)) (THREE.y p)
                                (THREE.z p * (i / r))), v * 0.6)
    else if Rlt_dec o r
    then (Some (THREE.mkVector3 (THREE.x p * (o / r)) (THREE.y p)
                                (THREE.z p * (o / r))), v * 0.6)
    else (Some p, v).
Proof.
  intros r Hr Hio. unfold trackBoundary, num_gt, num_lt, rescale, Rltb.
  destruct (Rlt_dec r i) as [H1|H1]; destruct (Rlt_dec o r) as [H2|H2];
    simpl; try lra; destruct (Req_dec_T r 0); try lra; reflexivity.
Qed.

(** C6.  When the position the integration step leaves is off the centre
    (radius [r > 0]) on a ring with [0 < innerR < outerR], the frame ends
    with the kart at a distance from the centre within
    [innerR - eps, outerR + eps], for every [eps >= 0].  On the ring 12..22
    a position at radius 30 is moved to radius 22 and the speed is
    multiplied by 0.6. *)
Theorem C6_boundary_keeps_kart_on_ring
    (carStats : Car) (fr : Frame) (w : World) (p : THREE.Vector3) (eps : R) :
  posAfterIntegration carStats fr w = Some p ->
  0 < hypot (THREE.x p) (THREE.z p) ->
  0 < innerR (race w) < outerR (race w) ->
  0 <= eps ->
  exists p' : THREE.Vector3,
    pos (kart (tick carStats fr w)) = Some p' /\
    innerR (race w) - eps <= hypot (THREE.x p') (THREE.z p')
      <= outerR (race w) + eps /\
    (innerR (race w) = 12 -> outerR (race w) = 22 ->
     hypot (THREE.x p) (THREE.z p) = 30 ->
     hypot (THREE.x p') (THREE.z p') = 22 /\
     snd (afterBoundary carStats fr w) = velAfterDynamics carStats fr w * 0.6).
Proof.
  intros Hp Hr Hio Heps. rewrite tick_pos.
  unfold afterBoundary, frameRadius. rewrite Hp. simpl radius.
  rewrite trackBoundary_spec by lra.
  set (r := hypot (THREE.x p) (THREE.z p)) in *.
  set (i := innerR (race w)) in *. set (o := outerR (race w)) in *.
  assert (Hr0 : r <> 0) by lra.
  destruct (Rlt_dec r i) as [H1|H1]; [|destruct (Rlt_dec o r) as [H2|H2]].
  - eexists. split; [reflexivity|]. simpl.
    unfold r. rewrite hypot_rescale by (fold r; lra). fold r.
    split; [lra|]. intros Hi Ho H30. lra.
  - eexists. split; [reflexivity|]. simpl.
    unfold r. rewrite hypot_rescale by (fold r; lra). fold r.
    split; [lra|]. intros Hi Ho H30. split; [lra|reflexivity].
  - exists p. split; [reflexivity|]. simpl. fold r.
    split; [lra|]. intros Hi Ho H30. lra.
Qed.

Lemma off_track_vel : velAfterDynamics CARS0 frame_throttle world_off_track = 28.
Proof.
  unfold velAfterDynamics, longitudinal. simpl.
  rewrite clampDt_small by lra. apply clamp_hi; lra.
Qed.

Lemma off_track_pos :
  posAfterIntegration CARS0 frame_throttle world_off_track
  = Some (THREE.mkVector3 30 0.35 0).
Proof.
  unfold posAfterIntegration.
  replace (yawAfterSteering CARS0 frame_throttle world_off_track) with 0
    by reflexivity.
  rewrite off_track_vel. simpl. rewrite clampDt_small by lra.
  rewrite cos_0, sin_0. f_equal. f_equal; lra.
Qed.

Lemma hypot_30 : hypot 30 0 = 30.
Proof. rewrite hypot_axis. unfold Rabs. destruct (Rcase_abs 30); lra. Qed.

Lemma C6_boundary_keeps_kart_on_ring_witness :
  exists p' : THREE.Vector3,
    pos (kart (tick CARS0 frame_throttle world_off_track)) = Some p' /\
    hypot (THREE.x p') (THREE.z p') = 22 /\
    snd (afterBoundary CARS0 frame_throttle world_off_track) = 28 * 0.6.
Proof.
  assert (Hr : 0 < hypot 30 0) by (rewrite hypot_30; lra).
  assert (Hio : 0 < innerR (race world_off_track) < outerR (race world_off_track))
    by (simpl; lra).
  assert (Heps : 0 <= 0) by lra.
  destruct (C6_boundary_keeps_kart_on_ring CARS0 frame_throttle world_off_track
              (THREE.mkVector3 30 0.35 0) 0 off_track_pos Hr Hio Heps)
    as [p' [Hp' [_ H]]].
  exists p'. split; [exact Hp'|].
  rewrite <- off_track_vel. apply H; [reflexivity|reflexivity|exact hypot_30].
Defined.

(** ** The division by [r] *)

(** C8 (counterexample).  The kart is at rest at the centre of the track
    and the frame has no duration, so the integration step leaves it there
    ([r = 0 < 1e-6]): the boundary code divides by [r] all the same and the
    frame ends with a position that is not a number. *)
Lemma C8_centre_position_becomes_NaN :
  posAfterIntegration CARS0 frame_still world_at_centre
    = Some (THREE.mkVector3 0 0.35 0) /\
  frameRadius CARS0 frame_still world_at_centre = Some 0 /\
  0 < 1e-6 /\
  pos (kart (tick CARS0 frame_still world_at_centre)) = None /\
  ~ (exists p : THREE.Vector3,
       pos (kart (tick CARS0 frame_still world_at_centre)) = Some p).
Proof.
  assert (Hv : velAfterDynamics CARS0 frame_still world_at_centre = 0).
  { unfold velAfterDynamics, longitudinal. simpl.
    rewrite clampDt_small by lra. rewrite clamp_id; lra. }
  assert (Hp : posAfterIntegration CARS0 frame_still world_at_centre
               = Some (THREE.mkVector3 0 0.35 0)).
  { unfold posAfterIntegration. rewrite Hv. simpl. f_equal. f_equal; lra. }
  assert (Hr : frameRadius CARS0 frame_still world_at_centre = Some 0).
  { unfold frameRadius. rewrite Hp. simpl. f_equal.
    rewrite hypot_axis. apply Rabs_R0. }
  assert (Hn : pos (kart (tick CARS0 frame_still world_at_centre)) = None).
  { rewrite tick_pos. unfold afterBoundary. rewrite Hr, Hp, Hv. simpl.
    unfold trackBoundary, num_gt, num_lt.
    rewrite (Rltb_true 0 12), (Rltb_false 22 0) by lra. simpl.
    destruct (Req_dec_T 0 0); [reflexivity|lra]. }
  split; [exact Hp|]. split; [exact Hr|]. split; [lra|]. split; [exact Hn|].
  rewrite Hn. intros [p Hp']. discriminate.
Qed.

(** C8 (amended).  The boundary code has no guard on [r].  On a ring with
    [0 < innerR], when the position the integration step leaves is a
    number at the radius [r]: at [r = 0] the frame ends with a position
    that is [NaN]; when [r] is large enough for the quotient [innerR / r]
    to be a finite double (at most 1e300, say), the frame ends with a
    position that is a number; and such a position at a radius below
    [innerR], be it below 1e-6, is not skipped but rescaled to radius
    [innerR]. *)
Theorem C8_position_finite_off_centre
    (carStats : Car) (fr : Frame) (w : World) (p : THREE.Vector3) :
  posAfterIntegration carStats fr w = Some p ->
  0 < innerR (race w) ->
  let r := hypot (THREE.x p) (THREE.z p) in
  (innerR (race w) <= r * 1e300 ->
   exists p' : THREE.Vector3,
     pos (kart (tick carStats fr w)) = Some p') /\
  (r = 0 -> pos (kart (tick carStats fr w)) = None) /\
  (innerR (race w) <= r * 1e300 -> r < innerR (race w) ->
   innerR (race w) <= outerR (race w) ->
   exists p' : THREE.Vector3,
     pos (kart (tick carStats fr w)) = Some p' /\
     hypot (THREE.x p') (THREE.z p') = innerR (race w)).
Proof.
  intros Hp Hi r. rewrite tick_pos.
  unfold afterBoundary, frameRadius. rewrite Hp. simpl radius. fold r.
  split; [|split].
  - intros Hk. assert (Hr : 0 < r) by lra.
    unfold trackBoundary, rescale, num_gt, num_lt.
    destruct (Rltb r (innerR (race w))); destruct (Rltb (outerR (race w)) r);
      simpl; destruct (Req_dec_T r 0); try lra; eexists; reflexivity.
  - intros Hr. unfold trackBoundary, rescale, num_gt, num_lt.
    rewrite Hr. rewrite (Rltb_true 0 (innerR (race w))) by lra.
    destruct (Rltb (outerR (race w)) 0); simpl;
      destruct (Req_dec_T 0 0); try lra; reflexivity.
  - intros Hk Hr Hio. assert (Hr0 : 0 < r) by lra.
    unfold r in *. rewrite trackBoundary_spec by lra.
    fold r in Hr, Hr0 |- *.
    destruct (Rlt_dec r (innerR (race w))); [|lra].
    eexists. split; [reflexivity|]. simpl.
    unfold r. apply hypot_rescale; fold r; lra.
Qed.

Lemma C8_position_finite_off_centre_witness :
  hypot (1 / 1073741824) 0 < 1e-6 /\
  exists p' : THREE.Vector3,
    pos (kart (tick CARS0 frame_still world_near_centre)) = Some p' /\
    hypot (THREE.x p') (THREE.z p') = 12.
Proof.
  assert (Hv : velAfterDynamics CARS0 frame_still world_near_centre = 0).
  { unfold velAfterDynamics, longitudinal. simpl.
    rewrite clampDt_small by lra. rewrite clamp_id; lra. }
  assert (Hp : posAfterIntegration CARS0 frame_still world_near_centre
               = Some (THREE.mkVector3 (1 / 1073741824) 0.35 0)).
  { unfold posAfterIntegration. rewrite Hv. simpl. f_equal. f_equal; lra. }
  assert (Hi : 0 < innerR (race world_near_centre)) by (simpl; lra).
  assert (Hr : hypot (1 / 1073741824) 0 = 1 / 1073741824).
  { rewrite hypot_axis. unfold Rabs.
    destruct (Rcase_abs (1 / 1073741824)); lra. }
  split; [rewrite Hr; lra|].
  apply (proj2 (proj2 (C8_position_finite_off_centre CARS0 frame_still
                         world_near_centre
                         (THREE.mkVector3 (1 / 1073741824) 0.35 0) Hp Hi))).
  - simpl THREE.x. simpl THREE.z. rewrite Hr. simpl. lra.
  - simpl THREE.x. simpl THREE.z. rewrite Hr. simpl. lra.
  - simpl. lra.
Defined.

(** ** Evaluating a frame *)

Lemma onAnyPad_radial_off (i o : R) (ang : num) (r : R) :
  (o - i) / 3 <= Rabs (r - (i + o) / 2) -> onAnyPad i o ang (Some r) = false.
Proof.
  intros H. unfold onAnyPad, pads, onPad. simpl.
  rewrite (Rltb_false _ _ H), !andb_false_r. reflexivity.
Qed.

(** The angle 0 (the start line) is in none of the boost windows. *)
Lemma onAnyPad_start_line (i o : R) (r : num) : onAnyPad i o (Some 0) r = false.
Proof.
  pose proof PI_RGT_0 as HPI.
  unfold onAnyPad, pads, onPad, padHalfWidth. simpl.
  rewrite (normalizeAngleR_id (0 - PI / 4)) by lra.
  rewrite (normalizeAngleR_id (0 - PI)) by lra.
  rewrite (normalizeAngleR_wrap_up (0 - 3 * PI / 2)) by lra.
  rewrite (Rltb_false (Rabs (0 - PI / 4)) (PI / 12)).
  2:{ unfold Rabs; destruct (Rcase_abs _); lra. }
  rewrite (Rltb_false (Rabs (0 - PI)) (PI / 12)).
  2:{ unfold Rabs; destruct (Rcase_abs _); lra. }
  rewrite (Rltb_false (Rabs (0 - 3 * PI / 2 + 2 * PI)) (PI / 12)).
  2:{ unfold Rabs; destruct (Rcase_abs _); lra. }
  reflexivity.
Qed.

(** A frame whose integration step ends on the ring, at radius [r] and
    angle [a], and fires no boost pad. *)
Lemma tick_on_ring (carStats : Car) (fr : Frame) (w : World)
    (v1 y1 r a : R) (p1 : THREE.Vector3) (b : bool) :
  velAfterDynamics carStats fr w = v1 ->
  yawAfterSteering carStats fr w = y1 ->
  posAfterIntegration carStats fr w = Some p1 ->
  hypot (THREE.x p1) (THREE.z p1) = r ->
  atan2 (THREE.z p1) (THREE.x p1) = a ->
  innerR (race w) <= r <= outerR (race w) ->
  onAnyPad (innerR (race w)) (outerR (race w)) (Some a) (Some r) = false ->
  crossedStart (innerR (race w)) (outerR (race w)) (lastAngle (kart w))
               (Some a) (Some r)
  && armed (checkpoint (kart w)) (lastAngle (kart w)) (Some a) = b ->
  tick carStats fr w
  = {| race := if b then completeLap (race w) else race w;
       kart := {| vel := v1; yaw := y1; pos := Some p1;
                  lastAngle := Some a;
                  checkpoint :=
                    if b then false
                    else armed (checkpoint (kart w)) (lastAngle (kart w)) (Some a);
                  lastBoostTime := lastBoostTime (kart w) |} |}.
Proof.
  intros Hv Hy Hp Hr Hang Hring Hpad Hlap.
  assert (Hrad : frameRadius carStats fr w = Some r).
  { unfold frameRadius. rewrite Hp. simpl. rewrite Hr. reflexivity. }
  assert (Hb : afterBoundary carStats fr w = (Some p1, v1)).
  { unfold afterBoundary. rewrite Hrad, Hp, Hv.
    apply trackBoundary_inside. exact Hring. }
  assert (Ha : frameAngle carStats fr w = Some a).
  { unfold frameAngle. rewrite Hb. simpl. rewrite Hang. reflexivity. }
  assert (Hl : lapCompleted carStats fr w = b).
  { unfold lapCompleted. rewrite Ha, Hrad. exact Hlap. }
  unfold tick. rewrite boostPads_spec, Hl, Ha, Hrad, Hb, Hy, Hpad.
  reflexivity.
Qed.

Lemma Rabs_pos_eq' (a : R) : 0 <= a -> Rabs a = a.
Proof. intros H. unfold Rabs. destruct (Rcase_abs a); lra. Qed.

Lemma hypot_ge (x z a : R) : 0 <= a -> a * a <= x * x + z * z -> a <= hypot x z.
Proof.
  intros Ha H. pose proof (hypot_nonneg x z). pose proof (hypot_sqr x z). nra.
Qed.

(** ** Rolling back onto the half-way line *)

Section Rocking.
Variable rs : RaceState.
Hypothesis Hinner : innerR rs = 12.
Hypothesis Houter : outerR rs = 22.
Variables t lb : R.

Lemma rocking_back :
  tick CARS0 (frame_back t) {| race := rs; kart := kart_below_half_line lb |}
  = {| race := completeLap rs; kart := kart_on_half_line lb |}.
Proof.
  pose proof PI_RGT_0 as HPI.
  pose proof (atan2_left_lower (- (57 / 35000)) (-21)) as Hang.
  assert (Hv : velAfterDynamics CARS0 (frame_back t)
                 {| race := rs; kart := kart_below_half_line lb |}
               = - (57 / 1750)).
  { unfold velAfterDynamics, longitudinal. simpl.
    rewrite clampDt_small by lra. rewrite clamp_id; lra. }
  rewrite (tick_on_ring _ _ _ (- (57 / 1750)) (- (PI / 2)) 21 PI
             (THREE.mkVector3 (-21) 0.35 0) true).
  - reflexivity.
  - exact Hv.
  - reflexivity.
  - unfold posAfterIntegration. rewrite Hv.
    replace (yawAfterSteering CARS0 (frame_back t)
               {| race := rs; kart := kart_below_half_line lb |})
      with (- (PI / 2)) by reflexivity.
    simpl. rewrite clampDt_small by lra.
    rewrite cos_neg, sin_neg, cos_PI2, sin_PI2. f_equal. f_equal; lra.
  - simpl. rewrite hypot_axis. rewrite Rabs_left; lra.
  - simpl. apply atan2_axis_neg. lra.
  - simpl. rewrite Hinner, Houter. lra.
  - simpl. rewrite Hinner, Houter. apply onAnyPad_radial_off.
    rewrite Rabs_pos_eq'; lra.
  - simpl. rewrite Hinner, Houter. unfold crossedStart, armed, crossedHalf.
    simpl. unfold num_ge, num_le.
    rewrite (Rltb_true _ 0) by lra.
    rewrite (Rleb_true 0 PI) by lra.
    rewrite (Rltb_true _ PI) by lra.
    rewrite (Rleb_true PI PI) by lra.
    rewrite (Rltb_true _ ((22 - 12) / 2)); [reflexivity|].
    rewrite Rabs_pos_eq'; lra.
Qed.
End Rocking.

(** ** Standing on the start line *)

(** One idle frame of a kart that has idled for [k < 20] frames: the coast
    term lowers the speed by 0.114 and the kart moves back along the x axis. *)
Lemma idle_step (k : nat) (t : R) (rs : RaceState) :
  innerR rs = 12 -> outerR rs = 22 -> (k < 20)%nat ->
  tick CARS0 (mkFrame 0.05 t None) {| race := rs; kart := kart_idle k |}
  = {| race := rs; kart := kart_idle (S k) |}.
Proof.
  intros Hi Ho Hk.
  assert (Hk0 : 0 <= INR k) by apply pos_INR.
  assert (Hk1 : INR k <= 19).
  { replace 19 with (INR 19) by (simpl; lra). apply le_INR. lia. }
  set (w := {| race := rs; kart := kart_idle k |}).
  set (x1 := 17 - 0.00285 * (INR k + 1) * (INR k + 1 + 1)).
  assert (Hx1 : 15 <= x1 <= 17) by (unfold x1; split; nra).
  assert (Hv : velAfterDynamics CARS0 (mkFrame 0.05 t None) w
               = - (0.114 * (INR k + 1))).
  { unfold velAfterDynamics, longitudinal. simpl.
    rewrite clampDt_small by lra. rewrite clamp_id; lra. }
  rewrite (tick_on_ring _ _ _ (- (0.114 * (INR k + 1))) 0 x1 0
             (THREE.mkVector3 x1 0.35 0) false).
  - unfold kart_idle. rewrite S_INR. fold x1. simpl.
    unfold armed, crossedHalf. simpl.
    pose proof PI_RGT_0. unfold num_ge, num_le, num_gt, num_lt.
    rewrite (Rleb_false PI 0), (Rleb_false 0 (- PI)) by lra.
    rewrite !andb_false_r. reflexivity.
  - exact Hv.
  - reflexivity.
  - unfold posAfterIntegration. rewrite Hv.
    replace (yawAfterSteering CARS0 (mkFrame 0.05 t None) w) with 0
      by reflexivity.
    simpl. rewrite clampDt_small by lra.
    rewrite cos_0, sin_0. f_equal. f_equal; unfold x1; lra.
  - simpl. rewrite hypot_axis. apply Rabs_pos_eq'. lra.
  - simpl. apply atan2_axis_pos. lra.
  - simpl. rewrite Hi, Ho. lra.
  - apply onAnyPad_start_line.
  - simpl. unfold crossedStart. simpl.
    rewrite (Rltb_false 0 0) by lra. reflexivity.
Qed.

Lemma idle_run (n k : nat) (t : R) (rs : RaceState) :
  innerR rs = 12 -> outerR rs = 22 -> (k + n <= 20)%nat ->
  runFrames CARS0 (idleFrames t n) {| race := rs; kart := kart_idle k |}
  = {| race := rs; kart := kart_idle (k + n) |}.
Proof.
  intros Hi Ho. revert k t. induction n as [|n IH]; intros k t Hk.
  - simpl. rewrite Nat.add_0_r. reflexivity.
  - cbn [idleFrames runFrames fold_left].
    rewrite idle_step by (assumption || lia).
    rewrite Nat.add_succ_r. apply (IH (S k)). lia.
Qed.

Lemma kart_idle_0 : kart_idle 0 = Kart_init.
Proof.
  unfold kart_idle, Kart_init. simpl INR. f_equal; try lra.
  f_equal. f_equal. lra.
Qed.

(** C3 (the code departs from the claim).  A fresh session with the first
    car: the kart stands on the start line with speed 0.  After twenty
    frames of 0.05 s with no control (one second), the heading is still 0,
    but the speed is -2.28 and the kart has rolled back from x = 17 to
    x = 15.803: the coast term is subtracted at rest too. *)
Theorem C3_idle_kart_rolls_back :
  let ses := RaceScreen useStore useRaceStore in
  let w := runFrames (ses_car ses) (idleFrames 0 20) (ses_world ses) in
  vel (kart (ses_world ses)) = 0 /\
  pos (kart (ses_world ses)) = Some (THREE.mkVector3 17 0.35 0) /\
  yaw (kart w) = yaw (kart (ses_world ses)) /\
  vel (kart w) = - 2.28 /\
  pos (kart w) = Some (THREE.mkVector3 15.803 0.35 0) /\
  pos (kart w) <> pos (kart (ses_world ses)).
Proof.
  intros ses w.
  assert (Hw : w = {| race := resetRace 3 useRaceStore; kart := kart_idle 20 |}).
  { unfold w, ses. unfold RaceScreen. simpl ses_car. simpl ses_world.
    rewrite <- kart_idle_0.
    apply (idle_run 20 0 0 (resetRace 3 useRaceStore)); [reflexivity|reflexivity|lia]. }
  assert (Hp : pos (kart w) = Some (THREE.mkVector3 15.803 0.35 0)).
  { rewrite Hw. simpl. f_equal. f_equal. lra. }
  split; [reflexivity|]. split; [simpl; f_equal; f_equal; lra|].
  split; [rewrite Hw; reflexivity|].
  split; [rewrite Hw; simpl; lra|].
  split; [exact Hp|].
  rewrite Hp. simpl. intros H. injection H as H. lra.
Qed.

(** With neither steering control held a frame leaves the heading alone. *)
Lemma tick_yaw_no_steering (carStats : Car) (fr : Frame) (w : World) :
  left (currentControls fr) = false -> right (currentControls fr) = false ->
  yaw (kart (tick carStats fr w)) = yaw (kart w).
Proof.
  intros Hl Hr. simpl. unfold yawAfterSteering, steering.
  rewrite Hl, Hr. reflexivity.
Qed.

(** ** Lap counting *)

Lemma tick_race (carStats : Car) (fr : Frame) (w : World) :
  race (tick carStats fr w)
  = if lapCompleted carStats fr w then completeLap (race w) else race w.
Proof. reflexivity. Qed.

Lemma tick_checkpoint (carStats : Car) (fr : Frame) (w : World) :
  checkpoint (kart (tick carStats fr w))
  = if lapCompleted carStats fr w then false
    else armed (checkpoint (kart w)) (lastAngle (kart w))
               (frameAngle carStats fr w).
Proof. reflexivity. Qed.

(** The test [crossedStart] of the source, condition by condition. *)
Lemma crossedStart_iff (i o : R) (angPrev ang r : num) :
  crossedStart i o angPrev ang r = true
  <-> crossesZero angPrev ang /\ nearCentreLine i o r.
Proof.
  unfold crossedStart, crossesZero, nearCentreLine.
  rewrite !andb_true_iff. split.
  - intros [[H1 H2] H3].
    destruct angPrev as [a0|]; [|discriminate].
    destruct ang as [a1|]; [|discriminate].
    destruct r as [r0|]; [|discriminate].
    simpl in *. unfold num_ge, num_le in H2.
    apply Rltb_true_iff in H1, H3. apply Rleb_true_iff in H2.
    split; [exists a0, a1|exists r0]; tauto.
  - intros [[a0 [a1 [-> [-> [H1 H2]]]]] [r0 [-> H3]]].
    simpl. unfold num_ge, num_le.
    rewrite !Rltb_true_iff, Rleb_true_iff. tauto.
Qed.

(** Unless the frame's angle is PI or beyond, the flag the lap test reads
    is the flag the frame started with. *)
Lemma armed_off_axis (cp : bool) (angPrev : num) (a : R) :
  - PI < a < PI -> armed cp angPrev (Some a) = cp.
Proof.
  intros H. unfold armed. rewrite crossedHalf_off_axis by exact H. reflexivity.
Qed.

(** The stages of a frame whose integration step ends on the ring. *)
Lemma stages_on_ring (carStats : Car) (fr : Frame) (w : World)
    (v1 r a : R) (p1 : THREE.Vector3) :
  velAfterDynamics carStats fr w = v1 ->
  posAfterIntegration carStats fr w = Some p1 ->
  hypot (THREE.x p1) (THREE.z p1) = r ->
  atan2 (THREE.z p1) (THREE.x p1) = a ->
  innerR (race w) <= r <= outerR (race w) ->
  frameRadius carStats fr w = Some r /\
  afterBoundary carStats fr w = (Some p1, v1) /\
  frameAngle carStats fr w = Some a.
Proof.
  intros Hv Hp Hr Hang Hring.
  assert (Hrad : frameRadius carStats fr w = Some r).
  { unfold frameRadius. rewrite Hp. simpl. rewrite Hr. reflexivity. }
  assert (Hb : afterBoundary carStats fr w = (Some p1, v1)).
  { unfold afterBoundary. rewrite Hrad, Hp, Hv.
    apply trackBoundary_inside. exact Hring. }
  split; [exact Hrad|]. split; [exact Hb|].
  unfold frameAngle. rewrite Hb. simpl. rewrite Hang. reflexivity.
Qed.

(** *** Full speed straight up across the x axis

    The frame of [kart_heading_up x0 cp] at [x0 = 17] or [x0 = -17], with
    the throttle held for 0.05 s. *)
Lemma atan2_right (y x : R) : 0 < x -> - (PI / 2) < atan2 y x < PI / 2.
Proof.
  intros Hx. unfold atan2. destruct (Rlt_dec 0 x); [|lra].
  pose proof (atan_bound (y / x)). lra.
Qed.

Lemma heading_up_stages (rs : RaceState) (x0 : R) (cp : bool) :
  innerR rs = 12 -> outerR rs = 22 -> x0 * x0 = 289 ->
  let w := {| race := rs; kart := kart_heading_up x0 cp |} in
  frameRadius CARS0 frame_throttle w = Some (hypot x0 0.7) /\
  afterBoundary CARS0 frame_throttle w
    = (Some (THREE.mkVector3 x0 0.35 0.7), 28) /\
  frameAngle CARS0 frame_throttle w = Some (atan2 0.7 x0) /\
  Rabs (hypot x0 0.7 - 17) < 5.
Proof.
  intros Hi Ho Hx w.
  assert (Hv : velAfterDynamics CARS0 frame_throttle w = 28).
  { unfold velAfterDynamics, longitudinal. simpl.
    rewrite clampDt_small by lra. apply clamp_hi; lra. }
  assert (Hp : posAfterIntegration CARS0 frame_throttle w
               = Some (THREE.mkVector3 x0 0.35 0.7)).
  { unfold posAfterIntegration. rewrite Hv.
    replace (yawAfterSteering CARS0 frame_throttle w) with (PI / 2)
      by reflexivity.
    simpl. rewrite clampDt_small by lra.
    rewrite cos_PI2, sin_PI2. f_equal. f_equal; lra. }
  assert (Hlo : 17 <= hypot x0 0.7) by (apply hypot_ge; lra).
  assert (Hhi : hypot x0 0.7 < 18) by (apply hypot_lt; lra).
  destruct (stages_on_ring CARS0 frame_throttle w 28 (hypot x0 0.7)
              (atan2 0.7 x0) (THREE.mkVector3 x0 0.35 0.7))
    as [H1 [H2 H3]].
  - exact Hv.
  - exact Hp.
  - reflexivity.
  - reflexivity.
  - simpl. rewrite Hi, Ho. lra.
  - split; [exact H1|]. split; [exact H2|]. split; [exact H3|].
    rewrite Rabs_pos_eq'; lra.
Qed.

(** With the flag armed the frame's lap test succeeds, on either side. *)
Lemma heading_up_lap (rs : RaceState) (x0 : R) :
  innerR rs = 12 -> outerR rs = 22 -> x0 * x0 = 289 ->
  lapCompleted CARS0 frame_throttle
               {| race := rs; kart := kart_heading_up x0 true |} = true.
Proof.
  intros Hi Ho Hx.
  destruct (heading_up_stages rs x0 true Hi Ho Hx) as [Hr [_ [Ha Hc]]].
  unfold lapCompleted. rewrite Ha, Hr. apply andb_true_iff. split.
  - apply crossedStart_iff. split.
    + exists (atan2 (-0.7) x0), (atan2 0.7 x0).
      split; [reflexivity|]. split; [reflexivity|].
      pose proof (atan2_neg (-0.7) x0). pose proof (atan2_pos 0.7 x0). lra.
    + exists (hypot x0 0.7). split; [reflexivity|].
      simpl. rewrite Hi, Ho.
      replace ((12 + 22) / 2) with 17 by lra.
      replace ((22 - 12) / 2) with 5 by lra. exact Hc.
  - simpl. unfold armed. destruct (crossedHalf _ _); reflexivity.
Qed.

(** C4 (the code departs from the claim).  The kart is just below the
    negative x axis (the half-way line), at an angle between -PI and
    -PI/2, with the checkpoint flag armed; one frame later it is just above
    that axis, at an angle between PI/2 and PI.  It has not been near the
    start line, the positive x axis: its x coordinate is -17 before and
    after the frame.  The sign test of the lap code holds all the same, and
    the frame raises [currentLap] from 1 to 2 and clears the flag. *)
Theorem C4_half_line_wrap_counts_a_lap :
  let w := world_armed_below_half_line in
  let w' := tick CARS0 frame_throttle w in
  pos (kart w) = Some (THREE.mkVector3 (-17) 0.35 (-0.7)) /\
  pos (kart w') = Some (THREE.mkVector3 (-17) 0.35 0.7) /\
  (exists a0 a1 : R,
     lastAngle (kart w) = Some a0 /\ lastAngle (kart w') = Some a1 /\
     - PI < a0 < - (PI / 2) /\ PI / 2 < a1 < PI) /\
  checkpoint (kart w) = true /\
  currentLap (race w) = 1%Z /\
  currentLap (race w') = 2%Z /\
  checkpoint (kart w') = false.
Proof.
  intros w w'.
  assert (Hx : -17 * -17 = 289) by lra.
  destruct (heading_up_stages race3 (-17) true eq_refl eq_refl Hx)
    as [_ [Hb [Ha _]]].
  pose proof (heading_up_lap race3 (-17) eq_refl eq_refl Hx) as Hl.
  fold world_armed_below_half_line in Hb, Ha, Hl. fold w in Hb, Ha, Hl.
  split; [reflexivity|]. split; [|split; [|split; [|split; [|split]]]].
  - unfold w'. rewrite tick_pos, Hb. reflexivity.
  - exists (atan2 (-0.7) (-17)), (atan2 0.7 (-17)).
    split; [reflexivity|]. split.
    + exact Ha.
    + split.
      * apply atan2_left_lower; lra.
      * apply atan2_left_upper; lra.
  - reflexivity.
  - reflexivity.
  - unfold w'. rewrite tick_race, Hl. reflexivity.
  - unfold w'. rewrite tick_checkpoint, Hl. reflexivity.
Qed.

(** The radial condition of the lap test is read on the radius before the
    boundary code; it holds of the radius the boundary code leaves exactly
    when it holds of that one. *)
Lemma nearCentreLine_after_boundary
    (carStats : Car) (fr : Frame) (w : World) (p : THREE.Vector3) :
  posAfterIntegration carStats fr w = Some p ->
  0 < hypot (THREE.x p) (THREE.z p) ->
  0 < innerR (race w) < outerR (race w) ->
  nearCentreLine (innerR (race w)) (outerR (race w)) (frameRadius carStats fr w)
  <-> nearCentreLine (innerR (race w)) (outerR (race w))
                     (radius (pos (kart (tick carStats fr w)))).
Proof.
  intros Hp Hr Hio. rewrite tick_pos.
  unfold afterBoundary, frameRadius. rewrite Hp. simpl radius.
  rewrite trackBoundary_spec by lra.
  set (r := hypot (THREE.x p) (THREE.z p)) in *.
  set (i := innerR (race w)) in *. set (o := outerR (race w)) in *.
  unfold nearCentreLine.
  destruct (Rlt_dec r i) as [H1|H1]; [|destruct (Rlt_dec o r) as [H2|H2]].
  - simpl. unfold r at 2 3. rewrite hypot_rescale by (fold r; lra). fold r.
    split; intros [r0 [E H]]; injection E as <-; exfalso;
      revert H; unfold Rabs; destruct (Rcase_abs _); lra.
  - simpl. unfold r at 2 3. rewrite hypot_rescale by (fold r; lra). fold r.
    split; intros [r0 [E H]]; injection E as <-; exfalso;
      revert H; unfold Rabs; destruct (Rcase_abs _); lra.
  - simpl. fold r. tauto.
Qed.

(** ** The finished flag *)

Lemma completeLap_latched (s : RaceState) : latched (completeLap s).
Proof. reflexivity. Qed.

Lemma tick_latched (carStats : Car) (fr : Frame) (w : World) :
  latched (race w) -> latched (race (tick carStats fr w)).
Proof.
  intros H. rewrite tick_race.
  destruct (lapCompleted carStats fr w); [apply completeLap_latched|exact H].
Qed.

Lemma runFrames_latched (carStats : Car) (frames : list Frame) (w : World) :
  latched (race w) -> latched (race (runFrames carStats frames w)).
Proof.
  revert w. induction frames as [|fr frames IH]; intros w H; [exact H|].
  simpl. apply IH, tick_latched, H.
Qed.

Lemma tick_currentLap (carStats : Car) (fr : Frame) (w : World) :
  currentLap (race (tick carStats fr w))
  = (currentLap (race w) + (if lapCompleted carStats fr w then 1 else 0))%Z
  /\ totalLaps (race (tick carStats fr w)) = totalLaps (race w).
Proof.
  rewrite tick_race. destruct (lapCompleted carStats fr w); simpl; split; lia.
Qed.

(** Once set, the flag survives a frame. *)
Lemma tick_finished_stays (carStats : Car) (fr : Frame) (w : World) :
  latched (race w) -> finished (race w) = true ->
  finished (race (tick carStats fr w)) = true.
Proof.
  intros Hl Hf. pose proof (tick_latched carStats fr w Hl) as Hl'.
  destruct (tick_currentLap carStats fr w) as [Hc Ht].
  unfold latched in *. rewrite Hl', Ht, Hc. rewrite Hl in Hf.
  apply Z.ltb_lt in Hf. apply Z.ltb_lt.
  destruct (lapCompleted carStats fr w); lia.
Qed.

Lemma runFrames_finished_stays (carStats : Car) (frames : list Frame) (w : World) :
  latched (race w) -> finished (race w) = true ->
  finished (race (runFrames carStats frames w)) = true.
Proof.
  revert w. induction frames as [|fr frames IH]; intros w Hl Hf; [exact Hf|].
  simpl. apply IH; [apply tick_latched, Hl|apply tick_finished_stays; assumption].
Qed.

Lemma runFrames_app (carStats : Car) (fs1 fs2 : list Frame) (w : World) :
  runFrames carStats (fs1 ++ fs2) w
  = runFrames carStats fs2 (runFrames carStats fs1 w).
Proof. unfold runFrames. apply fold_left_app. Qed.

Lemma risingEdges_trace (carStats : Car) (frames : list Frame) (w : World) :
  latched (race w) ->
  (risingEdges (finished (race w))
               (map (fun w => finished (race w)) (trace carStats frames w))
   <= if finished (race w) then 0 else 1)%nat.
Proof.
  revert w. induction frames as [|fr frames IH]; intros w Hl.
  - simpl. destruct (finished (race w)); lia.
  - cbn [trace map risingEdges].
    pose proof (IH _ (tick_latched carStats fr w Hl)) as IH'.
    pose proof (tick_finished_stays carStats fr w Hl) as Hs.
    destruct (finished (race w)).
    + rewrite Hs in * by reflexivity. simpl. lia.
    + destruct (finished (race (tick carStats fr w))); simpl in *; lia.
Qed.

(** C5.  In a session mounted with at least one lap to run, [currentLap]
    starts at 1 and [finished] at false; along every sequence of frames
    [finished] changes from false to true at most once; once true it is
    true after every further frame; and the frame in which it becomes true
    completes a lap with the old [currentLap] equal to [totalLaps], the new
    one being the first to exceed it. *)
Theorem C5_finished_is_a_latch
    (store : StoreState) (rs : RaceState) (frames : list Frame) :
  (1 <= laps store)%Z ->
  let ses := RaceScreen store rs in
  let carStats := ses_car ses in
  let w0 := ses_world ses in
  currentLap (race w0) = 1%Z /\ finished (race w0) = false /\
  (risingEdges false
     (map (fun w => finished (race w)) (trace carStats frames w0)) <= 1)%nat /\
  (forall fs1 fs2 : list Frame,
     finished (race (runFrames carStats fs1 w0)) = true ->
     finished (race (runFrames carStats (fs1 ++ fs2) w0)) = true) /\
  (forall (fs : list Frame) (fr : Frame),
     let w := runFrames carStats fs w0 in
     finished (race w) = false ->
     finished (race (tick carStats fr w)) = true ->
     lapCompleted carStats fr w = true /\
     currentLap (race w) = totalLaps (race w) /\
     currentLap (race (tick carStats fr w)) = (totalLaps (race w) + 1)%Z).
Proof.
  intros Hlaps ses carStats w0.
  assert (Hl0 : latched (race w0)).
  { unfold latched. simpl. symmetry. apply Z.ltb_ge. exact Hlaps. }
  split; [reflexivity|]. split; [reflexivity|]. split; [|split].
  - apply (risingEdges_trace carStats frames w0 Hl0).
  - intros fs1 fs2 Hf. rewrite runFrames_app.
    apply runFrames_finished_stays; [apply runFrames_latched, Hl0|exact Hf].
  - intros fs fr w Hf Hf'.
    assert (Hl : latched (race w)) by apply runFrames_latched, Hl0.
    pose proof (tick_latched carStats fr w Hl) as Hl'.
    destruct (tick_currentLap carStats fr w) as [Hc Ht].
    unfold latched in Hl, Hl'. rewrite Hf in Hl. rewrite Hf', Ht, Hc in Hl'.
    symmetry in Hl, Hl'. apply Z.ltb_ge in Hl. apply Z.ltb_lt in Hl'.
    rewrite Hc. destruct (lapCompleted carStats fr w); [|lia].
    split; [reflexivity|]. lia.
Qed.

Lemma C5_finished_is_a_latch_witness :
  (risingEdges false
     (map (fun w => finished (race w))
          (trace CARS0 (idleFrames 0 20)
                 (ses_world (RaceScreen useStore useRaceStore)))) <= 1)%nat.
Proof.
  assert (H : (1 <= laps useStore)%Z) by (unfold useStore, DEFAULT_LAPS; simpl; lia).
  exact (proj1 (proj2 (proj2
    (C5_finished_is_a_latch useStore useRaceStore (idleFrames 0 20) H)))).
Defined.

(** Every world of a session mounted with at least one lap to run is latched. *)
Lemma session_latched (store : StoreState) (rs : RaceState) (fs : list Frame) :
  (1 <= laps store)%Z ->
  latched (race (raceSession store rs fs)).
Proof.
  intros H. unfold raceSession. apply runFrames_latched.
  unfold latched. simpl. symmetry. apply Z.ltb_ge. exact H.
Qed.


Lemma rocking_back_lap (rs : RaceState) (t lb : R) :
  innerR rs = 12 -> outerR rs = 22 ->
  lapCompleted CARS0 (frame_back t)
               {| race := rs; kart := kart_below_half_line lb |} = true.
Proof.
  intros Hi Ho.
  pose proof (rocking_back rs Hi Ho t lb) as H.
  apply (f_equal (fun w => currentLap (race w))) in H.
  rewrite tick_race in H.
  destruct (lapCompleted CARS0 (frame_back t) _); [reflexivity|].
  simpl in H. lia.
Qed.



(** ** The selected track *)

Lemma tick_radii (carStats : Car) (fr : Frame) (w : World) :
  innerR (race (tick carStats fr w)) = innerR (race w) /\
  outerR (race (tick carStats fr w)) = outerR (race w).
Proof.
  rewrite tick_race. destruct (lapCompleted carStats fr w); split; reflexivity.
Qed.

Lemma runFrames_radii (carStats : Car) (frames : list Frame) (w : World) :
  innerR (race (runFrames carStats frames w)) = innerR (race w) /\
  outerR (race (runFrames carStats frames w)) = outerR (race w).
Proof.
  revert w. induction frames as [|fr frames IH]; intros w; [split; reflexivity|].
  destruct (IH (tick carStats fr w)) as [H1 H2].
  destruct (tick_radii carStats fr w) as [H3 H4].
  split; [rewrite <- H3; exact H1|rewrite <- H4; exact H2].
Qed.

(** An undefined track is not a selection: [makeSafeSelection] then
    replaces the car as well. *)
Lemma undefined_track_resets_car (store : StoreState) (rs : RaceState) :
  ses_car (RaceScreen (setTrack None store) rs) = CARS0.
Proof.
  unfold RaceScreen, useSafeSelection, makeSafeSelection, useSelection. simpl.
  destruct (selectedCharacter store); destruct (selectedCar store); reflexivity.
Qed.

(** C9.  The selected track reaches the session as its theme only.  Two
    sessions that differ in the selected track and receive the same frames
    run the same car through the same worlds, frame by frame (positions,
    speeds and lap counts).  The physics reads the radii of the race store,
    which no session and no frame changes: 12 and 22 from [useRaceStore];
    and the boost windows are the three centred at PI/4, PI and 3*PI/2,
    of half-width PI/12. *)
Theorem C9_track_selection_does_not_reach_physics
    (store : StoreState) (rs : RaceState) (t1 t2 : Track) (frames : list Frame) :
  let s1 := RaceScreen (setTrack (Some t1) store) rs in
  let s2 := RaceScreen (setTrack (Some t2) store) rs in
  ses_car s1 = ses_car s2 /\
  ses_world s1 = ses_world s2 /\
  trace (ses_car s1) frames (ses_world s1)
    = trace (ses_car s2) frames (ses_world s2) /\
  raceSession (setTrack (Some t1) store) rs frames
    = raceSession (setTrack (Some t2) store) rs frames /\
  innerR (race (raceSession (setTrack (Some t1) store) rs frames)) = innerR rs /\
  outerR (race (raceSession (setTrack (Some t1) store) rs frames)) = outerR rs /\
  innerR (race (raceSession (setTrack (Some t1) store) useRaceStore frames)) = 12 /\
  outerR (race (raceSession (setTrack (Some t1) store) useRaceStore frames)) = 22 /\
  pads = [PI / 4; PI; 3 * PI / 2] /\
  padHalfWidth = PI / 12.
Proof.
  intros s1 s2.
  assert (Hcar : ses_car s1 = ses_car s2).
  { unfold s1, s2, RaceScreen, useSafeSelection, makeSafeSelection, useSelection.
    simpl. destruct (selectedCharacter store); destruct (selectedCar store);
      reflexivity. }
  assert (Hw : ses_world s1 = ses_world s2) by reflexivity.
  assert (Hr : forall r0 : RaceState,
             innerR (race (raceSession (setTrack (Some t1) store) r0 frames))
               = innerR r0 /\
             outerR (race (raceSession (setTrack (Some t1) store) r0 frames))
               = outerR r0).
  { intros r0. unfold raceSession.
    destruct (runFrames_radii
                (ses_car (RaceScreen (setTrack (Some t1) store) r0)) frames
                (ses_world (RaceScreen (setTrack (Some t1) store) r0)))
      as [H1 H2].
    rewrite H1, H2. split; reflexivity. }
  split; [exact Hcar|]. split; [exact Hw|].
  split; [rewrite Hcar, Hw; reflexivity|].
  split; [unfold raceSession; fold s1; fold s2; rewrite Hcar, Hw; reflexivity|].
  split; [apply Hr|]. split; [apply Hr|].
  split; [apply (Hr useRaceStore)|]. split; [apply (Hr useRaceStore)|].
  split; reflexivity.
Qed.

(** * Further properties of the frame callback *)

Lemma hypot_heading (yaw_ k : R) : hypot (cos yaw_ * k) (sin yaw_ * k) = Rabs k.
Proof.
  apply hypot_unique; [apply Rabs_pos|].
  pose proof (sin2_cos2 yaw_) as H. unfold Rsqr in H.
  replace (Rabs k * Rabs k) with (k * k)
    by (unfold Rabs; destruct (Rcase_abs k); ring).
  replace (cos yaw_ * k * (cos yaw_ * k) + sin yaw_ * k * (sin yaw_ * k))
    with ((sin yaw_ * sin yaw_ + cos yaw_ * cos yaw_) * (k * k)) by ring.
  rewrite H. ring.
Qed.

(** The triangle inequality: a step of length [s] changes the radius by at
    most [s]. *)
Lemma hypot_step (x z a b : R) :
  hypot x z - hypot a b <= hypot (x + a) (z + b) <= hypot x z + hypot a b.
Proof.
  pose proof (hypot_nonneg x z) as Hr. pose proof (hypot_sqr x z) as Hr2.
  pose proof (hypot_nonneg a b) as Hs. pose proof (hypot_sqr a b) as Hs2.
  pose proof (hypot_nonneg (x + a) (z + b)) as Ht.
  pose proof (hypot_sqr (x + a) (z + b)) as Ht2.
  set (r := hypot x z) in *. set (s := hypot a b) in *.
  set (t := hypot (x + a) (z + b)) in *.
  assert (Hcs : (x * a + z * b) * (x * a + z * b) <= (r * s) * (r * s)).
  { replace (r * s * (r * s)) with ((r * r) * (s * s)) by ring.
    rewrite Hr2, Hs2.
    assert (E : (x * x + z * z) * (a * a + b * b)
                - (x * a + z * b) * (x * a + z * b)
                = (x * b - z * a) * (x * b - z * a)) by ring.
    pose proof (Rle_0_sqr (x * b - z * a)) as Hsq. unfold Rsqr in Hsq. lra. }
  assert (Hrs : 0 <= r * s) by nra.
  assert (Hd : - (r * s) <= x * a + z * b <= r * s) by (split; nra).
  split.
  - destruct (Rle_dec (r - s) 0); [lra|]. nra.
  - nra.
Qed.

(** X1.  Steering.  With both steering controls held the heading is left
    as it was.  With one of them held, for a car with positive [maxSpeed]
    and [handling] and a frame with [dt >= 0], the heading turns by at
    least 0.18 x handling x dt (the 10% floor, at rest) and by at most
    1.8 x handling x dt, to the left as an increase and to the right as a
    decrease. *)
Theorem X1_steering_cancels_and_is_bounded
    (carStats : Car) (c : Controls) (dt v yaw_ : R) :
  0 < maxSpeed carStats -> 0 < handling carStats -> 0 <= dt ->
  let h := handling carStats in
  let yaw' := steering carStats c dt v yaw_ in
  (left c = true -> right c = true -> yaw' = yaw_) /\
  (left c = false -> right c = false -> yaw' = yaw_) /\
  (left c = true -> right c = false ->
   0.18 * h * dt <= yaw' - yaw_ <= 1.8 * h * dt) /\
  (left c = false -> right c = true ->
   0.18 * h * dt <= yaw_ - yaw' <= 1.8 * h * dt).
Proof.
  intros Hm Hh Hdt h yaw'. unfold yaw', steering. fold h.
  pose proof (clamp_bounds (Rabs v / maxSpeed carStats) 0 1) as Hc.
  set (sf := clamp (Rabs v / maxSpeed carStats) 0 1) in *.
  assert (Hsf : 0 <= sf <= 1) by (apply Hc; lra).
  assert (Hhs : 0 <= h * sf) by (apply Rmult_le_pos; unfold h; lra).
  assert (Hhs1 : h * sf <= h * 1)
    by (apply Rmult_le_compat_l; unfold h; lra).
  assert (Hs : 0.1 * h <= h * (0.9 * sf + 0.1) <= h) by lra.
  set (s := h * (0.9 * sf + 0.1)) in *.
  assert (Hsd : 0.1 * h * dt <= s * dt <= h * dt)
    by (split; apply Rmult_le_compat_r; lra).
  split; [|split; [|split]]; intros Hl Hr; rewrite Hl, Hr; lra.
Qed.

Lemma X1_steering_cancels_and_is_bounded_witness :
  steering CARS0 (mkControls true true false false) 0.05 10 1 = 1.
Proof.
  assert (Hm : 0 < maxSpeed CARS0) by (simpl; lra).
  assert (Hh : 0 < handling CARS0) by (simpl; lra).
  assert (Hdt : 0 <= 0.05) by lra.
  exact (proj1 (X1_steering_cancels_and_is_bounded CARS0
                  (mkControls true true false false) 0.05 10 1 Hm Hh Hdt)
               eq_refl eq_refl).
Defined.

(** X2.  Position integration.  The step of a frame keeps the height of
    the kart and moves it in the plane by exactly |vel x dt|; for a car
    with [maxSpeed > 0] and a frame with [dt >= 0] that is at most
    0.05 x maxSpeed, whatever the controls and the speed before.  (At
    [maxSpeed = 0] the steering's quotient is 0/0 and the source's yaw is
    no number any more.) *)
Theorem X2_integration_step_length
    (carStats : Car) (fr : Frame) (w : World) (p : THREE.Vector3) :
  pos (kart w) = Some p -> 0 < maxSpeed carStats -> 0 <= delta fr ->
  exists p1 : THREE.Vector3,
    posAfterIntegration carStats fr w = Some p1 /\
    THREE.y p1 = THREE.y p /\
    hypot (THREE.x p1 - THREE.x p) (THREE.z p1 - THREE.z p)
      = Rabs (velAfterDynamics carStats fr w * clampDt (delta fr)) /\
    hypot (THREE.x p1 - THREE.x p) (THREE.z p1 - THREE.z p)
      <= 0.05 * maxSpeed carStats.
Proof.
  intros Hp Hm Hdt. unfold posAfterIntegration. rewrite Hp. simpl.
  eexists. split; [reflexivity|]. simpl. split; [reflexivity|].
  set (v := velAfterDynamics carStats fr w).
  set (y1 := yawAfterSteering carStats fr w).
  set (dt := clampDt (delta fr)).
  assert (E : hypot (THREE.x p + cos y1 * v * dt - THREE.x p)
                    (THREE.z p + sin y1 * v * dt - THREE.z p)
              = Rabs (v * dt)).
  { rewrite <- (hypot_heading y1 (v * dt)). f_equal; ring. }
  split; [exact E|]. rewrite E.
  assert (Hv : - maxSpeed carStats * 0.3 <= v <= maxSpeed carStats)
    by (apply longitudinal_bounds; lra).
  assert (Hd : 0 <= dt <= 0.05).
  { unfold dt, clampDt. destruct (Rlt_dec 0.05 (delta fr)); lra. }
  unfold Rabs. destruct (Rcase_abs (v * dt)); nra.
Qed.

Lemma X2_integration_step_length_witness :
  exists p1 : THREE.Vector3,
    posAfterIntegration CARS0 frame_throttle world_on_pad = Some p1 /\
    hypot (THREE.x p1 - (-17)) (THREE.z p1 - 0) <= 0.05 * 28.
Proof.
  assert (Hm : 0 < maxSpeed CARS0) by (simpl; lra).
  assert (Hdt : 0 <= delta frame_throttle) by (simpl; lra).
  destruct (X2_integration_step_length CARS0 frame_throttle world_on_pad
              (THREE.mkVector3 (-17) 0.35 0) eq_refl Hm Hdt)
    as [p1 [H1 [_ [_ H4]]]].
  exists p1. split; [exact H1|exact H4].
Defined.

(** X3.  Acceleration and braking, for [accel >= 0] and [dt >= 0].  The
    brake never raises the speed: with it held the frame's speed is at most
    what it is with the same other controls and the brake released.  For a
    speed within [-0.3 x maxSpeed, maxSpeed]: the throttle alone never
    lowers it, and with the throttle released it never rises. *)
Theorem X3_throttle_and_brake_directions
    (carStats : Car) (c : Controls) (dt v : R) :
  0 <= accel carStats -> 0 <= dt ->
  let lo := - maxSpeed carStats * 0.3 in
  let hi := maxSpeed carStats in
  longitudinal carStats (mkControls (left c) (right c) (up c) true) dt v
    <= longitudinal carStats (mkControls (left c) (right c) (up c) false) dt v /\
  (lo <= v <= hi -> up c = true -> down c = false ->
   v <= longitudinal carStats c dt v) /\
  (lo <= v <= hi -> up c = false -> longitudinal carStats c dt v <= v).
Proof.
  intros Ha Hdt lo hi.
  assert (Hadt : 0 <= accel carStats * dt) by nra.
  split; [|split].
  - unfold longitudinal. simpl. fold lo hi.
    destruct (up c); unfold clamp, Rmin, Rmax;
      repeat (destruct (Rle_dec _ _)); try lra; nra.
  - intros Hv Hu Hd. unfold longitudinal. rewrite Hu, Hd. fold lo hi.
    unfold clamp, Rmin, Rmax; repeat (destruct (Rle_dec _ _)); try lra; nra.
  - intros Hv Hu. unfold longitudinal. rewrite Hu. fold lo hi.
    destruct (down c); unfold clamp, Rmin, Rmax;
      repeat (destruct (Rle_dec _ _)); try lra; nra.
Qed.

Lemma X3_throttle_and_brake_directions_witness :
  longitudinal CARS0 (mkControls false false false false) 0.05 10 <= 10.
Proof.
  assert (Ha : 0 <= accel CARS0) by (simpl; lra).
  assert (Hdt : 0 <= 0.05) by lra.
  assert (Hv : - maxSpeed CARS0 * 0.3 <= 10 <= maxSpeed CARS0) by (simpl; lra).
  exact (proj2 (proj2 (X3_throttle_and_brake_directions CARS0
                         (mkControls false false false false) 0.05 10 Ha Hdt))
               Hv eq_refl).
Defined.

(** X4.  The cooldown across frames.  After a frame in which a boost pad
    fires, no pad fires in any run of further frames whose clock readings
    are within one second of that frame's, whichever windows the kart
    drives through; the recorded timestamp stays that frame's. *)
Theorem X4_no_second_boost_within_a_second
    (carStats : Car) (fr : Frame) (frames : list Frame) (w : World) :
  boostFires carStats fr w = true ->
  Forall (fun fr' => elapsedTime fr' - elapsedTime fr <= 1.0) frames ->
  countBoosts carStats frames (tick carStats fr w) = O /\
  lastBoostTime (kart (runFrames carStats frames (tick carStats fr w)))
    = elapsedTime fr.
Proof.
  intros Hb Hall.
  assert (Hlb : lastBoostTime (kart (tick carStats fr w)) = elapsedTime fr).
  { rewrite tick_lastBoostTime, Hb. reflexivity. }
  revert Hlb. generalize (tick carStats fr w). clear Hb w.
  induction Hall as [|fr' frames' Hfr' Hall IH]; intros w Hlb.
  - split; [reflexivity|exact Hlb].
  - assert (Hno : boostFires carStats fr' w = false).
    { unfold boostFires. rewrite Hlb, (Rltb_false _ _ Hfr').
      apply andb_false_r. }
    cbn [countBoosts runFrames fold_left]. rewrite Hno.
    apply IH. rewrite tick_lastBoostTime, Hno. exact Hlb.
Qed.

Lemma on_pad_fires : boostFires CARS0 frame_throttle world_on_pad = true.
Proof.
  unfold boostFires. rewrite on_pad_angle, on_pad_radius. simpl.
  rewrite on_pad_window. apply Rltb_true. lra.
Qed.

Lemma X4_no_second_boost_within_a_second_witness :
  countBoosts CARS0 [mkFrame 0.05 101 (Some throttle)]
              (tick CARS0 frame_throttle world_on_pad) = O.
Proof.
  assert (Hall : Forall (fun fr' => elapsedTime fr' - elapsedTime frame_throttle
                                    <= 1.0)
                        [mkFrame 0.05 101 (Some throttle)]).
  { constructor; [simpl; lra|constructor]. }
  exact (proj1 (X4_no_second_boost_within_a_second CARS0 frame_throttle
                  [mkFrame 0.05 101 (Some throttle)] world_on_pad
                  on_pad_fires Hall)).
Defined.

Lemma PI_cancel_lt (u v : R) : PI * u < PI * v -> u < v.
Proof. intros H. apply (Rmult_lt_reg_l PI); [apply PI_RGT_0|exact H]. Qed.

(** Two angular distances below PI/12 to centres [c1 x PI] and [c2 x PI]
    force [c2 - c1] to be within 1/6 of an even integer. *)
Lemma windows_overlap_inv (ang c1 c2 : R) :
  Rabs (normalizeAngleR (ang - c1 * PI)) < PI / 12 ->
  Rabs (normalizeAngleR (ang - c2 * PI)) < PI / 12 ->
  exists k : Z, - (1 / 6) < c2 - c1 + 2 * IZR k < 1 / 6.
Proof.
  intros H1 H2.
  destruct (normalizeAngleR_spec (ang - c1 * PI)) as [_ [k1 E1]].
  destruct (normalizeAngleR_spec (ang - c2 * PI)) as [_ [k2 E2]].
  rewrite E1 in H1. rewrite E2 in H2.
  apply Rabs_def2 in H1. apply Rabs_def2 in H2.
  exists (k1 - k2)%Z. rewrite minus_IZR. split; apply PI_cancel_lt; lra.
Qed.

(** X5.  The boost windows are disjoint: whatever the angle and the radius
    of the kart, it is inside at most one of the three windows. *)
Theorem X5_boost_windows_are_disjoint
    (innerR_ outerR_ : R) (ang r : num) (a b : R) :
  In a pads -> In b pads ->
  onPad innerR_ outerR_ ang r a = true ->
  onPad innerR_ outerR_ ang r b = true ->
  a = b.
Proof.
  intros Ha Hb Hpa Hpb.
  destruct ang as [ang|]; [|discriminate].
  destruct r as [r|]; [|unfold onPad in Hpa; simpl in Hpa;
                         rewrite andb_false_r in Hpa; discriminate].
  apply onPad_spec in Hpa. apply onPad_spec in Hpb.
  destruct Hpa as [Hpa _]. destruct Hpb as [Hpb _]. unfold padHalfWidth in *.
  assert (Hk : forall c1 c2 : R,
             Rabs (normalizeAngleR (ang - c1 * PI)) < PI / 12 ->
             Rabs (normalizeAngleR (ang - c2 * PI)) < PI / 12 ->
             forall lo hi : Z,
               (IZR lo < (c1 - c2) / 2 - 1 / 12)%R ->
               ((c1 - c2) / 2 + 1 / 12 < IZR hi)%R ->
               (hi = lo + 1)%Z -> False).
  { intros c1 c2 H1 H2 lo hi Hlo Hhi Hlh.
    destruct (windows_overlap_inv ang c1 c2 H1 H2) as [k [Hk1 Hk2]].
    assert (IZR lo < IZR k) by lra. assert (IZR k < IZR hi) by lra.
    apply lt_IZR in H, H0. lia. }
  simpl in Ha, Hb.
  destruct Ha as [<-|[<-|[<-|[]]]]; destruct Hb as [<-|[<-|[<-|[]]]];
    try reflexivity; exfalso.
  - replace (PI / 4) with (1 / 4 * PI) in Hpa by lra.
    replace PI with (1 * PI) in Hpb at 1 by lra.
    apply (Hk _ _ Hpa Hpb (-1)%Z 0%Z); simpl; lra || lia.
  - replace (PI / 4) with (1 / 4 * PI) in Hpa by lra.
    replace (3 * PI / 2) with (3 / 2 * PI) in Hpb by lra.
    apply (Hk _ _ Hpa Hpb (-1)%Z 0%Z); simpl; lra || lia.
  - replace (PI / 4) with (1 / 4 * PI) in Hpb by lra.
    replace PI with (1 * PI) in Hpa at 1 by lra.
    apply (Hk _ _ Hpa Hpb 0%Z 1%Z); simpl; lra || lia.
  - replace (3 * PI / 2) with (3 / 2 * PI) in Hpb by lra.
    replace PI with (1 * PI) in Hpa at 1 by lra.
    apply (Hk _ _ Hpa Hpb (-1)%Z 0%Z); simpl; lra || lia.
  - replace (PI / 4) with (1 / 4 * PI) in Hpb by lra.
    replace (3 * PI / 2) with (3 / 2 * PI) in Hpa by lra.
    apply (Hk _ _ Hpa Hpb 0%Z 1%Z); simpl; lra || lia.
  - replace (3 * PI / 2) with (3 / 2 * PI) in Hpa by lra.
    replace PI with (1 * PI) in Hpb at 1 by lra.
    apply (Hk _ _ Hpa Hpb 0%Z 1%Z); simpl; lra || lia.
Qed.

Lemma X5_boost_windows_are_disjoint_witness :
  onPad 12 22 (Some PI) (Some 15.6) PI = true /\
  onPad 12 22 (Some PI) (Some 15.6) (PI / 4) = false.
Proof.
  split; [exact on_pad_PI|].
  destruct (onPad 12 22 (Some PI) (Some 15.6) (PI / 4)) eqn:E; [|reflexivity].
  assert (H1 : In (PI / 4) pads) by (simpl; tauto).
  assert (H2 : In PI pads) by (simpl; tauto).
  pose proof (X5_boost_windows_are_disjoint 12 22 (Some PI) (Some 15.6)
                (PI / 4) PI H1 H2 E on_pad_PI) as H.
  pose proof PI_RGT_0. lra.
Defined.

(** ** Laps, frame after frame *)

Lemma tick_lastAngle (carStats : Car) (fr : Frame) (w : World) :
  lastAngle (kart (tick carStats fr w)) = frameAngle carStats fr w.
Proof. reflexivity. Qed.

(** X6.  No two frames in a row complete a lap: the frame after a lap
    completion starts from a non-negative angle, so its start-line test
    fails whatever that frame does. *)
Theorem X6_no_lap_on_the_next_frame
    (carStats : Car) (fr1 fr2 : Frame) (w : World) :
  lapCompleted carStats fr1 w = true ->
  lapCompleted carStats fr2 (tick carStats fr1 w) = false /\
  currentLap (race (tick carStats fr2 (tick carStats fr1 w)))
    = (currentLap (race w) + 1)%Z.
Proof.
  intros H.
  assert (Hl : lapCompleted carStats fr2 (tick carStats fr1 w) = false).
  { unfold lapCompleted in H. apply andb_true_iff in H. destruct H as [H _].
    apply crossedStart_iff in H. destruct H as [[a0 [a1 [_ [Ha [_ Ha1]]]]] _].
    unfold lapCompleted. rewrite tick_lastAngle, Ha.
    unfold crossedStart. simpl. rewrite (Rltb_false a1 0 Ha1). reflexivity. }
  split; [exact Hl|].
  destruct (tick_currentLap carStats fr2 (tick carStats fr1 w)) as [H2 _].
  destruct (tick_currentLap carStats fr1 w) as [H1 _].
  rewrite H2, Hl, H1, H. lia.
Qed.

Lemma X6_no_lap_on_the_next_frame_witness :
  lapCompleted CARS0 (frame_back 2)
               (tick CARS0 (frame_back 1) world_below_half_line) = false.
Proof.
  assert (H : lapCompleted CARS0 (frame_back 1) world_below_half_line = true)
    by (apply rocking_back_lap; reflexivity).
  exact (proj1 (X6_no_lap_on_the_next_frame CARS0 (frame_back 1) (frame_back 2)
                  world_below_half_line H)).
Defined.

(** ** A position that is not a number *)

Lemma tick_lost (carStats : Car) (fr : Frame) (w : World) :
  pos (kart w) = None ->
  pos (kart (tick carStats fr w)) = None /\
  lastAngle (kart (tick carStats fr w)) = NaN /\
  race (tick carStats fr w) = race w /\
  checkpoint (kart (tick carStats fr w)) = checkpoint (kart w) /\
  lastBoostTime (kart (tick carStats fr w)) = lastBoostTime (kart w) /\
  lapCompleted carStats fr w = false /\
  boostFires carStats fr w = false.
Proof.
  intros Hp.
  assert (Hpi : posAfterIntegration carStats fr w = None)
    by (unfold posAfterIntegration; rewrite Hp; reflexivity).
  assert (Hr : frameRadius carStats fr w = NaN)
    by (unfold frameRadius; rewrite Hpi; reflexivity).
  assert (Hb : afterBoundary carStats fr w
               = (None, velAfterDynamics carStats fr w))
    by (unfold afterBoundary; rewrite Hr, Hpi; reflexivity).
  assert (Ha : frameAngle carStats fr w = NaN)
    by (unfold frameAngle; rewrite Hb; reflexivity).
  assert (Hl : lapCompleted carStats fr w = false).
  { unfold lapCompleted, crossedStart. rewrite Ha, Hr. simpl.
    unfold num_ge, num_le. simpl. rewrite !andb_false_r. reflexivity. }
  assert (Hf : boostFires carStats fr w = false).
  { unfold boostFires, onAnyPad, pads, onPad. rewrite Ha, Hr. reflexivity. }
  rewrite tick_pos, tick_lastAngle, tick_race, tick_checkpoint,
    tick_lastBoostTime, Hb, Ha, Hl, Hf.
  repeat split; try reflexivity.
  unfold armed, crossedHalf, num_ge, num_le. simpl.
  rewrite !andb_false_r. reflexivity.
Qed.

(** X7.  A position that is [NaN] is never repaired: along every run from
    a world whose kart position is [NaN] the position stays [NaN], no lap
    is counted, no boost pad fires, and the race store, the checkpoint flag
    and the boost timestamp stay as they are. *)
Theorem X7_lost_position_is_absorbing
    (carStats : Car) (frames : list Frame) (w : World) :
  pos (kart w) = None ->
  let w' := runFrames carStats frames w in
  pos (kart w') = None /\
  race w' = race w /\
  checkpoint (kart w') = checkpoint (kart w) /\
  lastBoostTime (kart w') = lastBoostTime (kart w) /\
  countLaps carStats frames w = O /\
  countBoosts carStats frames w = O.
Proof.
  revert w. induction frames as [|fr frames IH]; intros w Hp.
  - simpl. repeat split; try reflexivity. exact Hp.
  - destruct (tick_lost carStats fr w Hp)
      as [H1 [_ [H3 [H4 [H5 [H6 H7]]]]]].
    destruct (IH (tick carStats fr w) H1) as [I1 [I2 [I3 [I4 [I5 I6]]]]].
    cbn zeta in *. cbn [runFrames fold_left countLaps countBoosts].
    unfold runFrames in I1, I2, I3, I4.
    rewrite I1, I2, I3, I4, I5, I6, H3, H4, H5, H6, H7.
    repeat split; reflexivity.
Qed.

Lemma X7_lost_position_is_absorbing_witness :
  pos (kart (runFrames CARS0 (idleFrames 0 20) world_lost)) = None /\
  race (runFrames CARS0 (idleFrames 0 20) world_lost) = race3.
Proof.
  destruct (X7_lost_position_is_absorbing CARS0 (idleFrames 0 20) world_lost
              eq_refl) as [H1 [H2 _]].
  split; [exact H1|exact H2].
Defined.

(** ** Staying on the ring *)

Lemma tick_keeps_ring (carStats : Car) (fr : Frame) (w : World) :
  0 < innerR (race w) <= outerR (race w) ->
  0 < maxSpeed carStats ->
  0.05 * maxSpeed carStats < innerR (race w) ->
  0 <= delta fr ->
  onRing w -> onRing (tick carStats fr w).
Proof.
  intros Hio Hm Hstep Hdt [p [Hp [Hr Hy]]].
  set (v := velAfterDynamics carStats fr w).
  set (y1 := yawAfterSteering carStats fr w).
  set (dt := clampDt (delta fr)).
  set (p1 := THREE.mkVector3 (THREE.x p + cos y1 * v * dt) (THREE.y p)
                             (THREE.z p + sin y1 * v * dt)).
  assert (Hp1 : posAfterIntegration carStats fr w = Some p1).
  { unfold posAfterIntegration. rewrite Hp. reflexivity. }
  assert (Hv : - maxSpeed carStats * 0.3 <= v <= maxSpeed carStats)
    by (apply longitudinal_bounds; lra).
  assert (Hd : 0 <= dt <= 0.05).
  { unfold dt, clampDt. destruct (Rlt_dec 0.05 (delta fr)); lra. }
  assert (Hlen : Rabs (v * dt) <= 0.05 * maxSpeed carStats).
  { unfold Rabs. destruct (Rcase_abs (v * dt)); nra. }
  assert (Hr1 : 0 < hypot (THREE.x p1) (THREE.z p1)).
  { pose proof (hypot_step (THREE.x p) (THREE.z p)
                           (cos y1 * (v * dt)) (sin y1 * (v * dt))) as [Hs _].
    rewrite hypot_heading in Hs. unfold p1. simpl.
    replace (cos y1 * v * dt) with (cos y1 * (v * dt)) by ring.
    replace (sin y1 * v * dt) with (sin y1 * (v * dt)) by ring. lra. }
  destruct (tick_radii carStats fr w) as [Ei Eo].
  unfold onRing. rewrite Ei, Eo, tick_pos.
  unfold afterBoundary, frameRadius. rewrite Hp1.
  change (radius (Some p1)) with (Some (hypot (THREE.x p1) (THREE.z p1))).
  rewrite trackBoundary_spec by lra.
  set (r := hypot (THREE.x p1) (THREE.z p1)) in *.
  destruct (Rlt_dec r (innerR (race w))) as [H1|H1];
    [|destruct (Rlt_dec (outerR (race w)) r) as [H2|H2]].
  - eexists. split; [reflexivity|]. simpl.
    unfold r. rewrite hypot_rescale by (fold r; lra). split; [lra|exact Hy].
  - eexists. split; [reflexivity|]. simpl.
    unfold r. rewrite hypot_rescale by (fold r; lra). split; [lra|exact Hy].
  - exists p1. split; [reflexivity|]. fold r. split; [lra|exact Hy].
Qed.

Lemma runFrames_keeps_ring (carStats : Car) (frames : list Frame) (w : World) :
  0 < innerR (race w) <= outerR (race w) ->
  0 < maxSpeed carStats ->
  0.05 * maxSpeed carStats < innerR (race w) ->
  Forall (fun fr => 0 <= delta fr) frames ->
  onRing w -> onRing (runFrames carStats frames w).
Proof.
  intros Hio Hm Hstep Hall. revert w Hio Hstep.
  induction Hall as [|fr frames Hfr Hall IH]; intros w Hio Hstep Hw.
  - exact Hw.
  - cbn [runFrames fold_left]. destruct (tick_radii carStats fr w) as [Ei Eo].
    apply (IH (tick carStats fr w)).
    + rewrite Ei, Eo. exact Hio.
    + rewrite Ei. exact Hstep.
    + apply tick_keeps_ring; assumption.
Qed.

(** X8.  A session never leaves the ring.  On a ring with
    [0 < innerR <= 17 <= outerR], for a car with [maxSpeed > 0] whose
    longest step (0.05 x maxSpeed) is shorter than [innerR], and frames
    with [dt >= 0]: after every sequence of frames the position is a number,
    its distance from the centre is within [innerR, outerR] and its height
    is the 0.35 it started with.  In particular the division by [r] never
    meets [r = 0]. *)
Theorem X8_session_stays_on_ring
    (store : StoreState) (rs : RaceState) (frames : list Frame) :
  0 < innerR rs <= 17 -> 17 <= outerR rs ->
  0 < maxSpeed (ses_car (RaceScreen store rs)) ->
  0.05 * maxSpeed (ses_car (RaceScreen store rs)) < innerR rs ->
  Forall (fun fr => 0 <= delta fr) frames ->
  exists p : THREE.Vector3,
    pos (kart (raceSession store rs frames)) = Some p /\
    innerR rs <= hypot (THREE.x p) (THREE.z p) <= outerR rs /\
    THREE.y p = 0.35.
Proof.
  intros Hi Ho Hm Hstep Hall.
  assert (H : onRing (raceSession store rs frames)).
  { unfold raceSession. apply runFrames_keeps_ring; simpl; try assumption.
    - lra.
    - exists (THREE.mkVector3 (12 + 5) 0.35 0). split; [reflexivity|].
      simpl. rewrite hypot_axis, Rabs_pos_eq' by lra.
      split; [lra|reflexivity]. }
  destruct H as [p [Hp [Hr Hy]]]. exists p.
  unfold raceSession in Hr.
  destruct (runFrames_radii (ses_car (RaceScreen store rs)) frames
              (ses_world (RaceScreen store rs))) as [Ei Eo].
  simpl in Ei, Eo. unfold raceSession in *.
  split; [exact Hp|]. split; [|exact Hy]. rewrite <- Ei, <- Eo. exact Hr.
Qed.

Lemma X8_session_stays_on_ring_witness :
  exists p : THREE.Vector3,
    pos (kart (raceSession useStore useRaceStore
                 [frame_throttle; frame_back 101])) = Some p /\
    12 <= hypot (THREE.x p) (THREE.z p) <= 22.
Proof.
  assert (Hi : 0 < innerR useRaceStore <= 17) by (simpl; lra).
  assert (Ho : 17 <= outerR useRaceStore) by (simpl; lra).
  assert (Hm : 0 < maxSpeed (ses_car (RaceScreen useStore useRaceStore)))
    by (simpl; lra).
  assert (Hs : 0.05 * maxSpeed (ses_car (RaceScreen useStore useRaceStore))
               < innerR useRaceStore) by (simpl; lra).
  assert (Hall : Forall (fun fr => 0 <= delta fr)
                        [frame_throttle; frame_back 101]).
  { constructor; [simpl; lra|]. constructor; [simpl; lra|constructor]. }
  destruct (X8_session_stays_on_ring useStore useRaceStore
              [frame_throttle; frame_back 101] Hi Ho Hm Hs Hall)
    as [p [Hp [Hr _]]].
  exists p. split; [exact Hp|exact Hr].
Defined.

(** ** Laps need the half-way angle *)

Lemma tick_unarmed (carStats : Car) (fr : Frame) (w : World) :
  checkpoint (kart w) = false ->
  awayFromHalfAngle (tick carStats fr w) ->
  lapCompleted carStats fr w = false /\
  checkpoint (kart (tick carStats fr w)) = false.
Proof.
  intros Hcp Hoff. unfold awayFromHalfAngle in Hoff.
  rewrite tick_lastAngle in Hoff.
  assert (Ha : armed (checkpoint (kart w)) (lastAngle (kart w))
                     (frameAngle carStats fr w) = false).
  { rewrite Hcp. destruct (frameAngle carStats fr w) as [a|].
    - apply armed_off_axis. exact Hoff.
    - unfold armed, crossedHalf, num_ge, num_le. simpl.
      rewrite !andb_false_r. reflexivity. }
  assert (Hl : lapCompleted carStats fr w = false).
  { unfold lapCompleted. rewrite Ha. apply andb_false_r. }
  split; [exact Hl|]. rewrite tick_checkpoint, Hl. exact Ha.
Qed.

(** Along idle frames on the start line the angle is 0. *)
Lemma idle_trace (n k : nat) (t : R) (rs : RaceState) :
  innerR rs = 12 -> outerR rs = 22 -> (k + n <= 20)%nat ->
  Forall awayFromHalfAngle
         (trace CARS0 (idleFrames t n) {| race := rs; kart := kart_idle k |}).
Proof.
  intros Hi Ho. revert k t. induction n as [|n IH]; intros k t Hk.
  - constructor.
  - cbn [idleFrames trace]. rewrite idle_step by (assumption || lia).
    constructor.
    + unfold awayFromHalfAngle. simpl. pose proof PI_RGT_0. lra.
    + apply (IH (S k)). lia.
Qed.

(** X9.  Laps need the half-way angle.  From a world whose checkpoint flag
    is false (as at the start of a session), along a run in which every
    frame computes an angle strictly between [-Math.PI] and [Math.PI] (or
    no number), no lap is counted however often the kart crosses the start
    line or goes round: the race store and the flag stay as they are. *)
Theorem X9_no_lap_without_half_angle
    (carStats : Car) (frames : list Frame) (w : World) :
  checkpoint (kart w) = false ->
  Forall awayFromHalfAngle (trace carStats frames w) ->
  race (runFrames carStats frames w) = race w /\
  checkpoint (kart (runFrames carStats frames w)) = false /\
  countLaps carStats frames w = O.
Proof.
  revert w. induction frames as [|fr frames IH]; intros w Hcp Hall.
  - simpl. repeat split; try reflexivity. exact Hcp.
  - cbn [trace] in Hall. inversion Hall as [|w1 ws Hoff Hrest]; subst.
    destruct (tick_unarmed carStats fr w Hcp Hoff) as [Hl Hcp'].
    destruct (IH (tick carStats fr w) Hcp' Hrest) as [I1 [I2 I3]].
    cbn [runFrames fold_left countLaps]. unfold runFrames in I1, I2.
    rewrite I1, I2, I3, Hl, tick_race, Hl. repeat split; reflexivity.
Qed.

(** Two runs: a frame that takes an unarmed kart at full speed across the
    start line, from (17, -0.7) to (17, 0.7), and twenty idle frames of a
    fresh session. *)
Lemma X9_no_lap_without_half_angle_witness :
  pos (kart (runFrames CARS0 [frame_throttle]
               {| race := race3; kart := kart_heading_up 17 false |}))
    = Some (THREE.mkVector3 17 0.35 0.7) /\
  race (runFrames CARS0 [frame_throttle]
          {| race := race3; kart := kart_heading_up 17 false |}) = race3 /\
  countLaps CARS0 (idleFrames 0 20) {| race := race3; kart := kart_idle 0 |}
    = O.
Proof.
  assert (Hx : 17 * 17 = 289) by lra.
  destruct (heading_up_stages race3 17 false eq_refl eq_refl Hx)
    as [_ [Hb [Ha _]]].
  assert (Hall : Forall awayFromHalfAngle
                        (trace CARS0 [frame_throttle]
                               {| race := race3;
                                  kart := kart_heading_up 17 false |})).
  { cbn [trace]. constructor; [|constructor].
    unfold awayFromHalfAngle. rewrite tick_lastAngle, Ha.
    pose proof (atan2_right 0.7 17). pose proof PI_RGT_0. lra. }
  split; [|split].
  - cbn [runFrames fold_left]. rewrite tick_pos, Hb. reflexivity.
  - exact (proj1 (X9_no_lap_without_half_angle CARS0 [frame_throttle]
                    {| race := race3; kart := kart_heading_up 17 false |}
                    eq_refl Hall)).
  - exact (proj2 (proj2 (X9_no_lap_without_half_angle CARS0 (idleFrames 0 20)
                    {| race := race3; kart := kart_idle 0 |} eq_refl
                    (idle_trace 20 0 0 race3 eq_refl eq_refl
                                (Nat.le_refl 20))))).
Defined.

(** * The utilities *)

(** X10.  [clamp].  With [min <= max] the result lies in [min, max], is
    the argument itself when that lies in the range, and clamping again
    changes nothing; [clamp] is monotone in its argument; with the bounds
    the wrong way round ([max < min]) the result is [max] whatever the
    argument. *)
Theorem X10_clamp_properties (v v' lo hi : R) :
  (lo <= hi -> lo <= clamp v lo hi <= hi) /\
  (lo <= v <= hi -> clamp v lo hi = v) /\
  (clamp (clamp v lo hi) lo hi = clamp v lo hi) /\
  (v <= v' -> clamp v lo hi <= clamp v' lo hi) /\
  (hi < lo -> clamp v lo hi = hi).
Proof.
  unfold clamp, Rmin, Rmax.
  repeat split; try intros H;
    repeat (destruct (Rle_dec _ _)); lra.
Qed.

Lemma sin_cos_period_Z (x : R) (k : Z) :
  sin (x + 2 * PI * IZR k) = sin x /\ cos (x + 2 * PI * IZR k) = cos x.
Proof.
  destruct (Z_le_gt_dec 0 k) as [Hk|Hk].
  - rewrite <- (Z2Nat.id k Hk), <- INR_IZR_INZ.
    replace (x + 2 * PI * INR (Z.to_nat k))
      with (x + 2 * INR (Z.to_nat k) * PI) by ring.
    split; [apply sin_period|apply cos_period].
  - assert (Hn : (0 <= - k)%Z) by lia.
    pose proof (sin_period (x + 2 * PI * IZR k) (Z.to_nat (- k))) as Hs.
    pose proof (cos_period (x + 2 * PI * IZR k) (Z.to_nat (- k))) as Hc.
    rewrite INR_IZR_INZ, (Z2Nat.id _ Hn), opp_IZR in Hs, Hc.
    replace (x + 2 * PI * IZR k + 2 * - IZR k * PI) with x in Hs, Hc by ring.
    split; symmetry; assumption.
Qed.

(** X11.  [normalizeAngle] returns an angle in [-PI, PI] that differs from
    its argument by a whole number of turns, so it has the same sine and
    cosine; it leaves an angle of [-PI, PI] as it is, and normalizing twice
    is normalizing once. *)
Theorem X11_normalizeAngle_canonical (a : R) :
  - PI <= normalizeAngleR a <= PI /\
  (exists k : Z, normalizeAngleR a = a + 2 * PI * IZR k) /\
  sin (normalizeAngleR a) = sin a /\
  cos (normalizeAngleR a) = cos a /\
  (- PI <= a <= PI -> normalizeAngleR a = a) /\
  normalizeAngleR (normalizeAngleR a) = normalizeAngleR a /\
  normalizeAngle (Some a) = Some (normalizeAngleR a) /\
  normalizeAngle NaN = NaN.
Proof.
  destruct (normalizeAngleR_spec a) as [Hr [k Hk]].
  split; [exact Hr|]. split; [exists k; exact Hk|].
  split; [rewrite Hk; apply sin_cos_period_Z|].
  split; [rewrite Hk; apply sin_cos_period_Z|].
  split; [apply normalizeAngleR_id|].
  split; [apply normalizeAngleR_id; exact Hr|].
  split; reflexivity.
Qed.

(** The remainder has the sign of the dividend. *)
Lemma Rrem_sign (a m : R) :
  0 < m ->
  (0 <= a -> 0 <= Rrem a m < m) /\ (a < 0 -> - m < Rrem a m <= 0).
Proof.
  intros Hm. unfold Rrem, Rtrunc.
  assert (Ha : a = m * (a / m)) by (field; lra).
  assert (Hinv : 0 < / m) by (apply Rinv_0_lt_compat; exact Hm).
  split; intros Hs.
  - assert (Hq : 0 <= a / m) by (unfold Rdiv; nra).
    destruct (Rle_dec 0 (a / m)); [|lra].
    destruct (base_Int_part (a / m)) as [H1 H2].
    set (q := IZR (Int_part (a / m))) in *.
    replace (a - m * q) with (m * (a / m - q))
      by (rewrite Rmult_minus_distr_l, <- Ha; ring).
    split; nra.
  - assert (Hq : a / m < 0) by (unfold Rdiv; nra).
    destruct (Rle_dec 0 (a / m)); [lra|].
    destruct (base_Int_part (- (a / m))) as [H1 H2].
    rewrite opp_IZR.
    set (q := IZR (Int_part (- (a / m)))) in *.
    replace (a - m * - q) with (m * (a / m + q))
      by (rewrite Rmult_plus_distr_l, <- Ha; ring).
    split; nra.
Qed.

(** X12.  [angleLerp].  At [t = 0] the result is [a]; at [t = 1] it is [b]
    up to whole turns.  When [b >= a - PI] the interpolation turns by the
    short way (the turn at [t = 1] is in [-PI, PI)); when [b < a - PI] the
    remainder is negative and the turn at [t = 1] is at most [-PI]: the
    long way round. *)
Theorem X12_angleLerp_endpoints_and_direction (a b : R) :
  angleLerp a b 0 = a /\
  (exists k : Z, angleLerp a b 1 = b + 2 * PI * IZR k) /\
  (a - PI <= b -> - PI <= angleLerp a b 1 - a < PI) /\
  (b < a - PI -> - (3 * PI) < angleLerp a b 1 - a <= - PI).
Proof.
  pose proof PI_RGT_0 as HPI.
  assert (Hm : 0 < 2 * PI) by lra.
  destruct (Rrem_spec (b - a + PI) (2 * PI) Hm) as [_ [k Hk]].
  destruct (Rrem_sign (b - a + PI) (2 * PI) Hm) as [Hpos Hneg].
  unfold angleLerp. split; [ring|]. split; [|split].
  - exists k. rewrite Hk. ring.
  - intros H. assert (H0 : 0 <= b - a + PI) by lra.
    apply Hpos in H0. lra.
  - intros H. assert (H0 : b - a + PI < 0) by lra.
    apply Hneg in H0. lra.
Qed.

(** * Selection, input and display *)

(** X13.  [makeSafeSelection] never returns a selection with a missing
    entry, whatever it is given ([undefined] included).  It returns a
    complete selection as it is, lap count included, and anything else as
    the first character, car and track with [DEFAULT_LAPS]: one missing
    entry discards the other choices too.  Applying it to its own result
    changes nothing. *)
Theorem X13_makeSafeSelection_total_and_idempotent (sel : option Selection) :
  let r := makeSafeSelectionJS sel in
  let defaults := {| character := Some CHARACTERS0; car := Some CARS0;
                     track := Some TRACKS0; sel_laps := DEFAULT_LAPS |} in
  (exists (c : Character) (k : Car) (t : Track),
     character r = Some c /\ car r = Some k /\ track r = Some t) /\
  makeSafeSelectionJS (Some r) = r /\
  (forall (s : Selection) (c : Character) (k : Car) (t : Track),
     sel = Some s -> character s = Some c -> car s = Some k ->
     track s = Some t -> r = s) /\
  (forall s : Selection,
     sel = Some s ->
     character s = None \/ car s = None \/ track s = None ->
     r = defaults) /\
  (sel = None -> r = defaults).
Proof.
  intros r defaults. unfold r, makeSafeSelectionJS, makeSafeSelection.
  destruct sel as [[[c|] [k|] [t|] n]|]; simpl;
    (split; [eexists; eexists; eexists; repeat split; reflexivity|]);
    (split; [reflexivity|]);
    (split; [intros s c' k' t' E Hc Hk Ht;
              first [discriminate E
                    |injection E as <-; simpl in *;
                     first [discriminate|reflexivity]]|]);
    (split; [intros s E H;
              first [discriminate E
                    |injection E as <-; simpl in H;
                     first [reflexivity
                           |destruct H as [H|[H|H]]; discriminate]]
            |intros E; first [discriminate E|reflexivity]]).
Qed.

(** X14.  A session on an incomplete selection runs the first car, track
    and character, but its lap target is still the store's [laps], while
    the safe selection reports [DEFAULT_LAPS]. *)
Theorem X14_incomplete_selection_keeps_store_laps
    (store : StoreState) (rs : RaceState) :
  selectedCharacter store = None \/ selectedCar store = None
    \/ selectedTrack store = None ->
  let ses := RaceScreen store rs in
  ses_car ses = CARS0 /\ ses_theme ses = TRACKS0 /\
  ses_character ses = CHARACTERS0 /\
  sel_laps (useSafeSelection store) = DEFAULT_LAPS /\
  totalLaps (race (ses_world ses)) = laps store.
Proof.
  intros H ses. unfold ses, RaceScreen, useSafeSelection, makeSafeSelection,
    useSelection. simpl.
  destruct (selectedCharacter store); destruct (selectedCar store);
    destruct (selectedTrack store); simpl;
    try (repeat split; reflexivity).
  destruct H as [H|[H|H]]; discriminate.
Qed.

Lemma X14_incomplete_selection_keeps_store_laps_witness :
  let store := setTrack None (setLaps 5 (setCar (Some (mkCar "torque" "Torque" 7.5 34 0.8)) useStore)) in
  ses_car (RaceScreen store useRaceStore) = CARS0 /\
  sel_laps (useSafeSelection store) = 3%Z /\
  totalLaps (race (ses_world (RaceScreen store useRaceStore))) = 5%Z.
Proof.
  intros store.
  assert (H : selectedCharacter store = None \/ selectedCar store = None
              \/ selectedTrack store = None) by (right; right; reflexivity).
  destruct (X14_incomplete_selection_keeps_store_laps store useRaceStore H)
    as [H1 [_ [_ [H4 H5]]]].
  split; [exact H1|]. split; [exact H4|exact H5].
Defined.

(** X15.  A key bound to a control changes that control and no other:
    pressing it sets the flag, releasing it clears the flag, and the three
    other flags stay as they are; it does not open the settings.  The flag
    follows the last event: releasing one of two held keys of the same
    control clears the flag while the other key is still down. *)
Theorem X15_bound_key_changes_its_flag_only
    (key : string) (d : Direction) (k : Controls) :
  In key (keysOf d) ->
  (forall d' : Direction,
     flag d' (keydown key k) = if Direction_eqb d' d then true else flag d' k) /\
  (forall d' : Direction,
     flag d' (keyup key k) = if Direction_eqb d' d then false else flag d' k) /\
  requestsSettings key = false /\
  (forall key2 : string,
     In key2 (keysOf d) ->
     flag d (keyup key (keydown key2 (keydown key k))) = false).
Proof.
  intros Hin.
  assert (Hdown : forall (k0 : Controls) (d' : Direction),
             flag d' (keydown key k0)
             = if Direction_eqb d' d then true else flag d' k0).
  { intros k0 d'. destruct d; simpl in Hin;
      destruct Hin as [<-|[<-|[<-|[]]]]; destruct d'; reflexivity. }
  assert (Hup : forall (k0 : Controls) (d' : Direction),
             flag d' (keyup key k0)
             = if Direction_eqb d' d then false else flag d' k0).
  { intros k0 d'. destruct d; simpl in Hin;
      destruct Hin as [<-|[<-|[<-|[]]]]; destruct d'; reflexivity. }
  split; [apply Hdown|]. split; [apply Hup|]. split.
  - destruct d; simpl in Hin; destruct Hin as [<-|[<-|[<-|[]]]]; reflexivity.
  - intros key2 _. rewrite Hup. destruct d; reflexivity.
Qed.

Lemma X15_bound_key_changes_its_flag_only_witness :
  keydown "a" noControls = mkControls true false false false /\
  left (keyup "a" (keydown "ArrowLeft" (keydown "a" noControls))) = false.
Proof.
  assert (Hin : In "a"%string (keysOf Left)) by (simpl; tauto).
  assert (Hin2 : In "ArrowLeft"%string (keysOf Left)) by (simpl; tauto).
  split; [reflexivity|].
  exact (proj2 (proj2 (proj2
    (X15_bound_key_changes_its_flag_only "a" Left noControls Hin)))
    "ArrowLeft"%string Hin2).
Defined.

Lemma includes_false (l : list string) (key : string) :
  ~ In key l -> includes l key = false.
Proof.
  intros H. unfold includes. destruct (existsb (String.eqb key) l) eqn:E;
    [|reflexivity].
  apply existsb_exists in E. destruct E as [x [Hx E]].
  apply String.eqb_eq in E. subst x. contradiction.
Qed.

(** X16.  A key bound to no control leaves the four flags as they are, on
    press and on release; so do the three keys that ask for the settings,
    which open them on press, while no release closes them; and a keyboard
    that is not enabled ignores every event. *)
Theorem X16_other_keys_and_disabled_keyboard
    (key : string) (e : KeyEvent) (s : Keyboard) :
  (~ In key (leftKeys ++ rightKeys ++ upKeys ++ downKeys) ->
   keydown key (keys s) = keys s /\ keyup key (keys s) = keys s) /\
  (requestsSettings key = true ->
   handleKey true (Keydown key) s = {| keys := keys s; showSettings := true |} /\
   handleKey true (Keyup key) s = s) /\
  showSettings (handleKey true (Keyup key) s) = showSettings s /\
  handleKey false e s = s.
Proof.
  assert (Hunbound : ~ In key (leftKeys ++ rightKeys ++ upKeys ++ downKeys) ->
                     keydown key (keys s) = keys s /\ keyup key (keys s) = keys s).
  { intros H. unfold keydown, keyup.
    rewrite !includes_false; [split; reflexivity| | | |];
      intros Hin; apply H; rewrite !in_app_iff; tauto. }
  split; [exact Hunbound|]. split; [|split; reflexivity].
  intros Hr. unfold handleKey. rewrite Hr.
  assert (Hk : ~ In key (leftKeys ++ rightKeys ++ upKeys ++ downKeys)).
  { unfold requestsSettings in Hr. rewrite !orb_true_iff in Hr.
    rewrite !String.eqb_eq in Hr.
    destruct Hr as [[->| ->]| ->]; simpl; intros H;
      repeat (destruct H as [H|H]; [discriminate|]); exact H. }
  destruct (Hunbound Hk) as [H1 H2]. rewrite H1, H2.
  split; [reflexivity|]. destruct s; reflexivity.
Qed.

(** X17.  The platform guess is always one of the three platforms the
    settings offer, and "Laptop" when there is no navigator.  On each of
    the three exactly one input source is live: the keyboard on "Laptop",
    the touch pad on the two others; on any other platform value neither
    is. *)
Theorem X17_one_input_source_per_platform
    (userAgent : option string) (p : string) :
  In (detectPlatform userAgent) PLATFORMS /\
  detectPlatform None = "Laptop"%string /\
  (In p PLATFORMS -> xorb (keyboardEnabled p) (touchPadShown p) = true) /\
  (~ In p PLATFORMS -> keyboardEnabled p = false /\ touchPadShown p = false).
Proof.
  split; [|split; [reflexivity|split]].
  - unfold detectPlatform, PLATFORMS.
    destruct (regexTest "iphone" _); [simpl; tauto|].
    destruct (regexTest "ipad" _ || regexTest "tablet" _); simpl; tauto.
  - intros H. simpl in H. destruct H as [<-|[<-|[<-|[]]]]; reflexivity.
  - intros H. unfold keyboardEnabled, touchPadShown.
    assert (E : forall q : string, In q PLATFORMS -> String.eqb p q = false).
    { intros q Hq. destruct (String.eqb p q) eqn:E; [|reflexivity].
      apply String.eqb_eq in E. subst q. contradiction. }
    rewrite !E by (simpl; tauto). split; reflexivity.
Qed.

(** X18.  The stat bars.  For a positive [max] the bar's width is between
    0 and 100 percent, grows with the value, and is the exact ratio when
    the value lies in [0, max]; and none of the three bars of any car of
    [CARS] is clipped. *)
Theorem X18_stat_bar_width (v v' max : R) :
  0 < max ->
  0 <= Stat_width v max <= 100 /\
  (v <= v' -> Stat_width v max <= Stat_width v' max) /\
  (0 <= v <= max -> Stat_width v max = v / max * 100) /\
  Forall (fun c => carStatBars c
                   = [accel c * 10; maxSpeed c * 2.5; handling c * 1000 / 12])
         CARS.
Proof.
  intros Hmax. unfold Stat_width, Stat_p.
  assert (Hinv : 0 < / max) by (apply Rinv_0_lt_compat; exact Hmax).
  pose proof (clamp_bounds (v / max) 0 1) as Hb.
  split; [|split; [|split]].
  - assert (0 <= clamp (v / max) 0 1 <= 1) by (apply Hb; lra). lra.
  - intros Hv. assert (v / max <= v' / max) by (unfold Rdiv; nra).
    assert (clamp (v / max) 0 1 <= clamp (v' / max) 0 1);
      [|lra].
    unfold clamp, Rmin, Rmax; repeat (destruct (Rle_dec _ _)); lra.
  - intros Hv. rewrite clamp_id; [reflexivity|].
    unfold Rdiv. split; [nra|].
    assert (v * / max <= max * / max) by (apply Rmult_le_compat_r; lra).
    replace (max * / max) with 1 in * by (field; lra). lra.
  - unfold CARS.
    repeat (apply Forall_cons;
            [unfold carStatBars, Stat_width, Stat_p; simpl;
             rewrite !clamp_id by lra;
             f_equal; [lra|f_equal; [lra|f_equal; lra]]|]).
    apply Forall_nil.
Qed.

Lemma X18_stat_bar_width_witness : 0 <= Stat_width 9.5 10 <= 100.
Proof.
  assert (H : 0 < 10) by lra.
  exact (proj1 (X18_stat_bar_width 9.5 9.5 10 H)).
Defined.

(** * The camera and the stands *)

Lemma Rpower_milli_bounds (dt : R) : 0 <= dt -> 0 < Rpower 0.001 dt <= 1.
Proof.
  intros Hdt. unfold Rpower. split; [apply exp_pos|].
  assert (Hln : ln 0.001 < 0).
  { rewrite <- ln_1. apply ln_increasing; lra. }
  destruct Hdt as [Hdt|<-].
  - left. rewrite <- exp_0. apply exp_increasing. nra.
  - rewrite Rmult_0_l, exp_0. lra.
Qed.

(** X19.  Camera smoothing.  A frame leaves the camera at the fraction
    0.001^dt of its former offset from the desired point, in each
    coordinate; for [dt >= 0] the interpolation factor is in [0, 1), so the
    camera never overshoots.  With the target at rest the smoothing does
    not depend on the frame rate: two frames of [dt1] and [dt2] move the
    camera as one frame of [dt1 + dt2] does, and a frame of [dt = 0]
    leaves it where it is. *)
Theorem X19_camera_smoothing
    (dt dt2 : R) (target : option Object3D) (camera : THREE.Vector3) :
  let d := desiredCamera target in
  let camera' := cameraFrame dt target camera in
  THREE.x d - THREE.x camera' = Rpower 0.001 dt * (THREE.x d - THREE.x camera) /\
  THREE.y d - THREE.y camera' = Rpower 0.001 dt * (THREE.y d - THREE.y camera) /\
  THREE.z d - THREE.z camera' = Rpower 0.001 dt * (THREE.z d - THREE.z camera) /\
  (0 <= dt -> 0 <= 1 - Rpower 0.001 dt < 1) /\
  cameraFrame dt2 target (cameraFrame dt target camera)
    = cameraFrame (dt + dt2) target camera /\
  cameraFrame 0 target camera = camera.
Proof.
  intros d camera'. unfold camera', cameraFrame, Vector3_lerp. fold d. simpl.
  split; [ring|]. split; [ring|]. split; [ring|]. split; [|split].
  - intros Hdt. pose proof (Rpower_milli_bounds dt Hdt). lra.
  - rewrite Rpower_plus. f_equal; ring.
  - rewrite Rpower_O by lra. destruct camera. simpl. f_equal; ring.
Qed.

(** X20.  Where the camera aims to be.  With the rotation [Kart] writes to
    the scene, the vector the rig calls [behind] is the heading
    [(cos yaw, sin yaw)]: the desired point is 5 above the kart and exactly
    8 away from it in the plane, on the side the kart moves to at positive
    speed (the integration step of a frame is [vel x dt / 8] of the way to
    it). *)
Theorem X20_camera_desired_point
    (k : Kart) (p : THREE.Vector3) (v dt : R) :
  pos k = Some p ->
  let d := desiredCamera (writeToScene k) in
  d = THREE.mkVector3 (THREE.x p + 8 * cos (yaw k)) (THREE.y p + 5)
                      (THREE.z p + 8 * sin (yaw k)) /\
  hypot (THREE.x d - THREE.x p) (THREE.z d - THREE.z p) = 8 /\
  integrate (yaw k) v dt (Some p)
  = Some (THREE.mkVector3
            (THREE.x p + (v * dt / 8) * (THREE.x d - THREE.x p))
            (THREE.y p)
            (THREE.z p + (v * dt / 8) * (THREE.z d - THREE.z p))).
Proof.
  intros Hp d.
  assert (Hs : sin (- yaw k + PI / 2) = cos (yaw k)).
  { replace (- yaw k + PI / 2) with (PI / 2 - yaw k) by ring. apply sin_shift. }
  assert (Hc : cos (- yaw k + PI / 2) = sin (yaw k)).
  { replace (- yaw k + PI / 2) with (PI / 2 - yaw k) by ring. apply cos_shift. }
  assert (Hd : d = THREE.mkVector3 (THREE.x p + 8 * cos (yaw k)) (THREE.y p + 5)
                                   (THREE.z p + 8 * sin (yaw k))).
  { unfold d, desiredCamera, writeToScene. rewrite Hp. simpl.
    rewrite Hs, Hc. f_equal; ring. }
  split; [exact Hd|]. rewrite Hd. simpl. split.
  - replace (THREE.x p + 8 * cos (yaw k) - THREE.x p) with (cos (yaw k) * 8)
      by ring.
    replace (THREE.z p + 8 * sin (yaw k) - THREE.z p) with (sin (yaw k) * 8)
      by ring.
    rewrite hypot_heading. apply Rabs_pos_eq'. lra.
  - f_equal. f_equal; field.
Qed.

Lemma X20_camera_desired_point_witness :
  desiredCamera (writeToScene Kart_init) = THREE.mkVector3 (12 + 5 + 8 * cos 0) (0.35 + 5) (0 + 8 * sin 0).
Proof.
  exact (proj1 (X20_camera_desired_point Kart_init
                  (THREE.mkVector3 (12 + 5) 0.35 0) 0 0 eq_refl)).
Defined.

Lemma seatCount_floor (r : R) :
  IZR (seatCount r) * 2.5 <= 2 * PI * r < (IZR (seatCount r) + 1) * 2.5.
Proof.
  unfold seatCount. destruct (base_Int_part (2 * PI * r / 2.5)) as [H1 H2].
  set (q := IZR (Int_part (2 * PI * r / 2.5))) in *.
  assert (E : 2 * PI * r = (2 * PI * r / 2.5) * 2.5) by (field; lra).
  split; lra.
Qed.

Lemma seatCount_pos (r : R) : 1 <= r -> (2 <= seatCount r)%Z.
Proof.
  intros Hr. pose proof PI2_3_2 as HPI.
  destruct (seatCount_floor r) as [_ H].
  assert (IZR 1 < IZR (seatCount r)) by (simpl; nra).
  apply lt_IZR in H0. lia.
Qed.

(** X21.  The stands.  For an outer radius [outerR >= 0] every seat stands
    on the circle of its ring's radius, which is one of the four radii
    [outerR + 1 .. outerR + 4]: no seat is on the track.  The seats of a
    ring are [floor(2 PI r / 2.5)] in number, at least two, at angles in
    [0, 2 PI), and each has at least 2.5 of the circle's length to itself. *)
Theorem X21_seats_stand_outside_the_track (outerR_ : R) :
  0 <= outerR_ ->
  Forall (fun s =>
            hypot (seat_x s) (seat_z s) = seat_r s /\
            outerR_ + 1 <= seat_r s <= outerR_ + 4 /\
            outerR_ < hypot (seat_x s) (seat_z s) /\
            0 <= seat_a s < 2 * PI /\
            2.5 <= 2 * PI * seat_r s / IZR (seatCount (seat_r s)))
         (seats outerR_) /\
  (forall r : R, 1 <= r ->
     List.length (seatRing r) = Z.to_nat (seatCount r) /\ (2 <= seatCount r)%Z).
Proof.
  intros Ho. pose proof PI_RGT_0 as HPI. split.
  - apply Forall_forall. intros s Hs. unfold seats in Hs.
    apply in_flat_map in Hs. destruct Hs as [r [Hr Hs]].
    assert (Hrr : outerR_ + 1 <= r <= outerR_ + 4).
    { simpl in Hr. destruct Hr as [<-|[<-|[<-|[<-|[]]]]]; lra. }
    unfold seatRing in Hs. apply in_map_iff in Hs.
    destruct Hs as [i [<- Hi]]. apply in_seq in Hi. simpl.
    assert (Hc : (2 <= seatCount r)%Z) by (apply seatCount_pos; lra).
    assert (Hci : 2 <= IZR (seatCount r)) by (apply (IZR_le 2); exact Hc).
    assert (Hi' : INR i < IZR (seatCount r)).
    { rewrite INR_IZR_INZ. apply IZR_lt. lia. }
    assert (Hi0 : 0 <= INR i) by apply pos_INR.
    assert (Hh : hypot (cos (INR i / IZR (seatCount r) * PI * 2) * r)
                       (sin (INR i / IZR (seatCount r) * PI * 2) * r) = r).
    { rewrite hypot_heading. apply Rabs_pos_eq'. lra. }
    rewrite Hh. split; [reflexivity|]. split; [exact Hrr|]. split; [lra|].
    assert (Hinv : 0 < / IZR (seatCount r)) by (apply Rinv_0_lt_compat; lra).
    assert (Hq : 0 <= INR i / IZR (seatCount r) < 1).
    { unfold Rdiv. split; [nra|].
      assert (INR i * / IZR (seatCount r)
              < IZR (seatCount r) * / IZR (seatCount r))
        by (apply Rmult_lt_compat_r; lra).
      replace (IZR (seatCount r) * / IZR (seatCount r)) with 1 in *
        by (field; lra). lra. }
    split; [split; nra|].
    destruct (seatCount_floor r) as [Hf _].
    unfold Rdiv. apply (Rmult_le_reg_r (IZR (seatCount r))); [lra|].
    rewrite Rmult_assoc, Rinv_l by lra. lra.
  - intros r Hr. split; [|apply seatCount_pos; exact Hr].
    unfold seatRing. rewrite length_map, length_seq. reflexivity.
Qed.

Lemma X21_seats_stand_outside_the_track_witness :
  List.length (seatRing 23) = Z.to_nat (seatCount 23) /\ (2 <= seatCount 23)%Z.
Proof.
  assert (Ho : 0 <= 22) by lra. assert (Hr : 1 <= 23) by lra.
  exact (proj2 (X21_seats_stand_outside_the_track 22 Ho) 23 Hr).
Defined.

(** * The boost, once more *)

(** X22.  What a boost adds.  For a car with [maxSpeed >= 0], a frame in
    which a boost pad fires ends with a speed that is at least the speed
    the boundary code left and at most 8 above it; a frame in which none
    fires ends with exactly that speed. *)
Theorem X22_boost_gain (carStats : Car) (fr : Frame) (w : World) :
  0 <= maxSpeed carStats ->
  let v := snd (afterBoundary carStats fr w) in
  let v' := vel (kart (tick carStats fr w)) in
  (boostFires carStats fr w = true -> v <= v' <= v + 8) /\
  (boostFires carStats fr w = false -> v' = v).
Proof.
  intros Hm v v'.
  assert (Hv : - maxSpeed carStats * 0.3 <= v <= maxSpeed carStats).
  { unfold v, afterBoundary. apply trackBoundary_vel_bounds; [exact Hm|].
    apply longitudinal_bounds. exact Hm. }
  unfold v'. rewrite tick_vel. fold v.
  split; intros Hb; rewrite Hb; [|reflexivity].
  unfold Rmin. destruct (Rle_dec _ _); lra.
Qed.

Lemma X22_boost_gain_witness :
  28 <= vel (kart (tick CARS0 frame_throttle world_on_pad)) <= 28 + 8.
Proof.
  assert (Hm : 0 <= maxSpeed CARS0) by (simpl; lra).
  pose proof (proj1 (X22_boost_gain CARS0 frame_throttle world_on_pad Hm)
                on_pad_fires) as H.
  rewrite on_pad_boundary in H. exact H.
Defined.

Lemma detectPlatform_examples :
  detectPlatform (Some "Mozilla/5.0 (iPhone; CPU iPhone OS 17_0 like Mac OS X)"%string)
    = "iPhone"%string /\
  detectPlatform (Some "Mozilla/5.0 (iPad; CPU OS 16_0 like Mac OS X)"%string)
    = "iPad"%string /\
  detectPlatform (Some "Mozilla/5.0 (Linux; Android 13; SM-X200 Tablet)"%string)
    = "iPad"%string /\
  detectPlatform (Some "Mozilla/5.0 (X11; Linux x86_64)"%string)
    = "Laptop"%string.
Proof. repeat split; reflexivity. Qed.
